(** * Discourse API client of obsidian-publish-to-discourse (src/api.ts)

    A shallow embedding of the [DiscourseAPI] class.  Response bodies are
    JavaScript values as [JSON.parse] builds them; every host interaction
    ([requestUrl], [vault.readBinary], [Math.random], [NotifyUser]) is a node
    of a program tree, and [run] interprets a tree against a host while
    logging the requests and notifications in the order they happen. *)

From Stdlib Require Import ZArith List String Ascii Bool Lia Permutation Sorted.
From Stdlib Require Import DecimalString.
From Stdlib.Strings Require Import Byte.
Import ListNotations.

Set Warnings "-register-all".
Local Open Scope list_scope.
Local Open Scope string_scope.

(** ** JavaScript values *)

Module JS.

(** The values [JSON.parse] can produce, plus [undefined] for an absent
    property.  A number is an integer, as the ids, counts and status codes
    of the forum are; fractions and exponents are outside the model.  An
    object is the list of its own properties, and the first binding of a
    name is the property. *)
Inductive JValue : Type :=
| JUndefined
| JNull
| JBool (b : bool)
| JNum (n : Z)
| JStr (s : string)
| JArr (items : list JValue)
| JObj (props : list (string * JValue)).

(** A thrown value: an [Error] object with its [name] and [message]. *)
Record JsError : Type := mkError { err_name : string; err_message : string }.

Definition TypeError (msg : string) : JsError := mkError "TypeError" msg.

(** [Error.prototype.toString], what a template literal prints for an
    error. *)
Definition errorToString (e : JsError) : string :=
  if (err_name e =? "") then err_message e
  else if (err_message e =? "") then err_name e
  else err_name e ++ ": " ++ err_message e.

Definition string_of_Z (n : Z) : string :=
  NilZero.string_of_int (Z.to_int n).

(** ToBoolean. *)
Definition truthy (v : JValue) : bool :=
  match v with
  | JUndefined | JNull => false
  | JBool b => b
  | JNum n => negb (n =? 0)%Z
  | JStr s => negb (s =? "")
  | JArr _ | JObj _ => true
  end.

(** ToString.  An array prints its elements separated by commas, with
    [null] and [undefined] elements printed as the empty string. *)
Fixpoint toString (v : JValue) : string :=
  match v with
  | JUndefined => "undefined"
  | JNull => "null"
  | JBool true => "true"
  | JBool false => "false"
  | JNum n => string_of_Z n
  | JStr s => s
  | JArr items =>
      (fix commas (l : list JValue) : string :=
         match l with
         | [] => ""
         | x :: rest =>
             let sx := match x with
                       | JUndefined | JNull => ""
                       | _ => toString x
                       end in
             match rest with
             | [] => sx
             | _ :: _ => sx ++ "," ++ commas rest
             end
         end) items
  | JObj _ => "[object Object]"
  end.

(** The text of one element inside [Array.prototype.join]. *)
Definition joinItem (x : JValue) : string :=
  match x with
  | JUndefined | JNull => ""
  | _ => toString x
  end.

(** [Array.prototype.join] on the elements of an array. *)
Fixpoint join (sep : string) (l : list JValue) : string :=
  match l with
  | [] => ""
  | x :: rest =>
      match rest with
      | [] => joinItem x
      | _ :: _ => joinItem x ++ sep ++ join sep rest
      end
  end.

(** [s.startsWith(pre)] on strings. *)
Fixpoint startsWith (s pre : string) {struct pre} : bool :=
  match pre with
  | EmptyString => true
  | String a pre' =>
      match s with
      | EmptyString => false
      | String b s' => (b =? a)%char && startsWith s' pre'
      end
  end.

(** [a || b] on values. *)
Definition or (a b : JValue) : JValue := if truthy a then a else b.

Fixpoint lookup (p : string) (props : list (string * JValue)) : JValue :=
  match props with
  | [] => JUndefined
  | (k, v) :: rest => if (k =? p) then v else lookup p rest
  end.

(** SameValueZero, the key equality of [Map].  Two objects (or arrays) are
    the same key only when they are the same object; the names read from
    different elements of a parsed body never are. *)
Definition sameValueZero (a b : JValue) : bool :=
  match a, b with
  | JUndefined, JUndefined => true
  | JNull, JNull => true
  | JBool x, JBool y => Bool.eqb x y
  | JNum x, JNum y => (x =? y)%Z
  | JStr x, JStr y => (x =? y)
  | _, _ => false
  end.

(** A number as arithmetic sees it. *)
Inductive Number : Type :=
| Finite (n : Z)
| NaN.

End JS.
Export JS.

(** ** The host: network, vault, random numbers and notifications *)

Module Host.

(** What a host call comes back with: a value, or a thrown exception. *)
Inductive Outcome (A : Type) : Type :=
| Done (a : A)
| Raised (e : JsError).
Arguments Done {A} a.
Arguments Raised {A} e.

(** The body handed to [requestUrl]: the argument of [JSON.stringify], or
    the bytes of an [ArrayBuffer]. *)
Inductive RequestBody : Type :=
| Stringified (v : JValue)
| Buffer (bytes : list byte).

(** The parameter object of [requestUrl]. *)
Record RequestUrlParam : Type := mkRequest {
  url : string;
  method : string;
  contentType : option string;
  body : option RequestBody;
  headers : list (string * option string);
  throw : bool
}.

(** The part of [RequestUrlResponse] the client reads.  [json] is a getter
    that parses the body text, and throws when the text is not JSON. *)
Record RequestUrlResponse : Type := mkResponse {
  status : Z;
  json : Outcome JValue
}.

(** The part of [TFile] the client reads. *)
Record TFile : Type := mkFile {
  file_name : string;
  extension : string
}.

Inductive Event : Type :=
| Requested (r : RequestUrlParam)
| Notified (msg : string)
| ReadFile (f : TFile).

Definition Trace : Type := list Event.

(** A program of the client.  A node is one host call with the rest of the
    program waiting for its answer; [Unmodelled] marks a JavaScript
    behaviour this embedding does not cover. *)
Inductive Prog (A : Type) : Type :=
| Ret (a : A)
| Throw (e : JsError)
| Unmodelled
| RequestUrl (r : RequestUrlParam) (k : Outcome RequestUrlResponse -> Prog A)
| ReadBinary (f : TFile) (k : Outcome (list byte) -> Prog A)
| MathRandom (k : string -> Prog A)
| NotifyUser (msg : string) (k : Prog A).
Arguments Ret {A} a.
Arguments Throw {A} e.
Arguments Unmodelled {A}.
Arguments RequestUrl {A} r k.
Arguments ReadBinary {A} f k.
Arguments MathRandom {A} k.
Arguments NotifyUser {A} msg k.

Fixpoint bind {A B : Type} (p : Prog A) (f : A -> Prog B) : Prog B :=
  match p with
  | Ret a => f a
  | Throw e => Throw e
  | Unmodelled => Unmodelled
  | RequestUrl r k => RequestUrl r (fun o => bind (k o) f)
  | ReadBinary fl k => ReadBinary fl (fun o => bind (k o) f)
  | MathRandom k => MathRandom (fun s => bind (k s) f)
  | NotifyUser msg k => NotifyUser msg (bind k f)
  end.

(** [try { p } catch (error) { handler error }]. *)
Fixpoint tryCatch {A : Type} (p : Prog A) (handler : JsError -> Prog A)
  : Prog A :=
  match p with
  | Ret a => Ret a
  | Throw e => handler e
  | Unmodelled => Unmodelled
  | RequestUrl r k => RequestUrl r (fun o => tryCatch (k o) handler)
  | ReadBinary fl k => ReadBinary fl (fun o => tryCatch (k o) handler)
  | MathRandom k => MathRandom (fun s => tryCatch (k s) handler)
  | NotifyUser msg k => NotifyUser msg (tryCatch k handler)
  end.

Definition settle {A : Type} (o : Outcome A) : Prog A :=
  match o with
  | Done a => Ret a
  | Raised e => Throw e
  end.

(** [await requestUrl(r)]. *)
Definition requestUrl (r : RequestUrlParam) : Prog RequestUrlResponse :=
  RequestUrl r settle.

(** [await this.app.vault.readBinary(file)]. *)
Definition readBinary (f : TFile) : Prog (list byte) :=
  ReadBinary f settle.

(** [Math.random().toString(16).substring(2)]: the hexadecimal digits of
    the fraction, as the host draws them. *)
Definition randomHexDigits : Prog string := MathRandom Ret.

(** [new NotifyUser(this.app, msg).open()]. *)
Definition notify (msg : string) : Prog unit := NotifyUser msg (Ret tt).

(** [response.json]. *)
Definition getJson (response : RequestUrlResponse) : Prog JValue :=
  settle (json response).

(** A host answers each call from what has happened so far. *)
Record World : Type := mkWorld {
  network : Trace -> RequestUrlParam -> Outcome RequestUrlResponse;
  vault : Trace -> TFile -> Outcome (list byte);
  random : Trace -> string
}.

(** How a call of the client ends. *)
Inductive Completion (A : Type) : Type :=
| Returned (a : A)
| Threw (e : JsError)
| NotModelled.
Arguments Returned {A} a.
Arguments Threw {A} e.
Arguments NotModelled {A}.

(** Runs a program against a host; the trace lists the host calls in the
    order they were made. *)
Fixpoint run {A : Type} (w : World) (tr : Trace) (p : Prog A)
  : Completion A * Trace :=
  match p with
  | Ret a => (Returned a, tr)
  | Throw e => (Threw e, tr)
  | Unmodelled => (NotModelled, tr)
  | RequestUrl r k => run w (tr ++ [Requested r])%list (k (network w tr r))
  | ReadBinary f k => run w (tr ++ [ReadFile f])%list (k (vault w tr f))
  | MathRandom k => run w tr (k (random w tr))
  | NotifyUser msg k => run w (tr ++ [Notified msg])%list k
  end.

Definition requests (tr : Trace) : list RequestUrlParam :=
  flat_map (fun ev => match ev with Requested r => [r] | _ => [] end) tr.

Definition notifications (tr : Trace) : list string :=
  flat_map (fun ev => match ev with Notified m => [m] | _ => [] end) tr.

End Host.
Export Host.

Declare Scope prog_scope.
Delimit Scope prog_scope with prog.
Notation "x <- c ;; k" := (bind c (fun x => k))
  (at level 61, c at next level, right associativity) : prog_scope.
Notation "c ;;; k" := (bind c (fun _ => k))
  (at level 61, right associativity) : prog_scope.
Local Open Scope prog_scope.

(** ** Property access and coercions that may throw *)

Module Access.

(** [v.p].  Reading a property of [null] or [undefined] throws; a
    primitive has no own property but the [length] of a string.  The
    client reads no property that a built-in prototype defines, apart from
    [length].  The length of a string is taken in bytes: it is 0 for the
    empty string only, which is all the client asks of it.  The text of a
    [TypeError] is the one V8 gives. *)
Definition get (v : JValue) (p : string) : Prog JValue :=
  match v with
  | JUndefined =>
      Throw (TypeError ("Cannot read properties of undefined (reading '" ++ p ++ "')"))
  | JNull =>
      Throw (TypeError ("Cannot read properties of null (reading '" ++ p ++ "')"))
  | JBool _ | JNum _ => Ret JUndefined
  | JStr s =>
      if (p =? "length") then Ret (JNum (Z.of_nat (String.length s)))
      else Ret JUndefined
  | JArr items =>
      if (p =? "length") then Ret (JNum (Z.of_nat (List.length items)))
      else Ret JUndefined
  | JObj props => Ret (lookup p props)
  end.

(** [v?.p]. *)
Definition getOptional (v : JValue) (p : string) : Prog JValue :=
  match v with
  | JUndefined | JNull => Ret JUndefined
  | _ => get v p
  end.

(** [a && b], with [b] evaluated only when [a] is truthy. *)
Definition and (a : JValue) (b : Prog JValue) : Prog JValue :=
  if truthy a then b else Ret a.

(** ToNumber on [undefined], [null], booleans and numbers.  The numeric
    value of a string, an array or an object is not modelled: a program
    that asks for it ends as [Unmodelled]. *)
Definition toNumber (v : JValue) : Prog Number :=
  match v with
  | JUndefined => Ret NaN
  | JNull => Ret (Finite 0)
  | JBool true => Ret (Finite 1)
  | JBool false => Ret (Finite 0)
  | JNum n => Ret (Finite n)
  | JStr _ | JArr _ | JObj _ => Unmodelled
  end.

(** [v > 0]. *)
Definition greaterThanZero (v : JValue) : Prog bool :=
  n <- toNumber v ;;
  match n with
  | Finite z => Ret (0 <? z)%Z
  | NaN => Ret false
  end.

(** [Math.max(a, b)].  The result is stored back as a value, and [NaN] is
    not a value of [JValue]. *)
Definition mathMax (a b : JValue) : Prog JValue :=
  x <- toNumber a ;;
  y <- toNumber b ;;
  match x, y with
  | Finite m, Finite n => Ret (JNum (Z.max m n))
  | _, _ => Unmodelled
  end.

(** [v.join(sep)]: only an array has a [join] method. *)
Definition callJoin (v : JValue) (sep : string) : Prog JValue :=
  match v with
  | JArr items => Ret (JStr (join sep items))
  | JUndefined | JNull =>
      Throw (TypeError "Cannot read properties of undefined (reading 'join')")
  | _ => Throw (TypeError "join is not a function")
  end.

(** [v.startsWith(prefix)]: only a string has a [startsWith] method. *)
Definition callStartsWith (v : JValue) (pre : string) : Prog bool :=
  match v with
  | JStr s => Ret (startsWith s pre)
  | JUndefined | JNull =>
      Throw (TypeError "Cannot read properties of undefined (reading 'startsWith')")
  | _ => Throw (TypeError "startsWith is not a function")
  end.

(** [v.forEach(callback)], the callback updating the local variables [s]
    of the enclosing function: only an array has a [forEach] method. *)
Fixpoint forEachItem {S : Type} (items : list JValue)
    (callback : JValue -> S -> Prog S) (s : S) : Prog S :=
  match items with
  | [] => Ret s
  | x :: rest => s' <- callback x s ;; forEachItem rest callback s'
  end.

Definition forEach {S : Type} (v : JValue)
    (callback : JValue -> S -> Prog S) (s : S) : Prog S :=
  match v with
  | JArr items => forEachItem items callback s
  | JUndefined | JNull =>
      Throw (TypeError "Cannot read properties of undefined (reading 'forEach')")
  | _ => Throw (TypeError "forEach is not a function")
  end.

End Access.
Import Access.

(** ** Strings of the client *)

Definition DQ : string := String (ascii_of_nat 34) "".
Definition CR : string := String (ascii_of_nat 13) "".
Definition LF : string := String (ascii_of_nat 10) "".
Definition CRLF : string := CR ++ LF.

(** [s.replace(/\/$/, '')]: without the [m] flag [$] matches at the end of
    the input only, so the last character goes when it is a slash. *)
Fixpoint replaceTrailingSlash (s : string) : string :=
  match s with
  | EmptyString => EmptyString
  | String c rest =>
      match rest with
      | EmptyString => if (c =? "/")%char then EmptyString else s
      | String _ _ => String c (replaceTrailingSlash rest)
      end
  end.

(** [new TextEncoder().encode(s)]: a string of the model is its UTF-8
    bytes already. *)
Definition encode (s : string) : list byte := list_byte_of_string s.

(** ** Settings and results *)

(** Modelled from the spec: the declaration of [DiscourseSyncSettings]
    (config.ts), of which the client reads [baseUrl] and [userApiKey]; the
    spec gives both as strings that may be empty or unset, and [None] is an
    unset one. *)
Record DiscourseSyncSettings : Type := mkSettings {
  baseUrl : option string;
  userApiKey : option string
}.

(** A setting inside a template literal. *)
Definition interpolate (s : option string) : string :=
  match s with
  | Some x => x
  | None => "undefined"
  end.

(** [!s] for a setting. *)
Definition unset (s : option string) : bool :=
  match s with
  | Some x => (x =? "")
  | None => true
  end.

(** Result of [uploadImage]. *)
Record UploadResult : Type := mkUpload {
  shortUrl : JValue;
  fullUrl : JValue
}.

(** Result of [createPost] and of [updatePost]; [None] is a key the object
    literal does not have. *)
Record PostResult : Type := mkPostResult {
  success : bool;
  postId : option JValue;
  topicId : option JValue;
  error : option JValue
}.

Definition failure (e : JValue) : PostResult :=
  {| success := false; postId := None; topicId := None; error := Some e |}.

(** Result of [testApiKey]. *)
Record TestResult : Type := mkTestResult {
  test_success : bool;
  message : string
}.

(** An element of the result of [fetchCategories]. *)
Record Category : Type := mkCategory {
  id : JValue;
  name : JValue
}.

(** An element of the result of [fetchTags]. *)
Record Tag : Type := mkTag {
  tag_name : JValue;
  canCreate : JValue
}.

(** Result of [fetchTopicInfo]. *)
Record TopicInfo : Type := mkTopicInfo {
  tags : JValue;
  categoryId : option JValue
}.

(** ** The map [allTags] of [fetchTags] *)

(** A value of the map; its key is its [entry_name]. *)
Record TagCount : Type := mkTagCount {
  entry_name : JValue;
  count : JValue
}.

(** A [Map] in insertion order. *)
Definition TagMap : Type := list TagCount.

(** [allTags.get(key)]. *)
Fixpoint mapGet (m : TagMap) (key : JValue) : option TagCount :=
  match m with
  | [] => None
  | e :: rest =>
      if sameValueZero (entry_name e) key then Some e else mapGet rest key
  end.

(** [allTags.set(key, value)] with [value.name = key]: a key already in the
    map keeps its place and takes the new value. *)
Fixpoint mapSet (m : TagMap) (value : TagCount) : TagMap :=
  match m with
  | [] => [value]
  | e :: rest =>
      if sameValueZero (entry_name e) (entry_name value) then value :: rest
      else e :: mapSet rest value
  end.

(** [existing.count = c] for the entry [allTags.get(key)] returned: the
    object in the map is the one written to. *)
Fixpoint setCount (m : TagMap) (key : JValue) (c : JValue) : TagMap :=
  match m with
  | [] => []
  | e :: rest =>
      if sameValueZero (entry_name e) key
      then {| entry_name := entry_name e; count := c |} :: rest
      else e :: setCount rest key c
  end.

(** [Array.prototype.sort] with the comparator [(a, b) => b.count - a.count]
    on numeric counts: the sort is stable, so elements with equal counts keep
    their order. *)
Fixpoint insertDesc (x : Z * TagCount) (l : list (Z * TagCount))
  : list (Z * TagCount) :=
  match l with
  | [] => [x]
  | y :: rest =>
      if (fst y <? fst x)%Z then x :: y :: rest
      else y :: insertDesc x rest
  end.

Definition sortDesc (l : list (Z * TagCount)) : list (Z * TagCount) :=
  fold_left (fun acc x => insertDesc x acc) l [].

(** ** The class [DiscourseAPI] *)

Section DiscourseAPI.

(** The translation function of i18n.ts, from a key to the text shown. *)
Variable t : string -> string.

(** [this.settings]. *)
Variable settings : DiscourseSyncSettings.

(** [genBoundary()]. *)
Definition genBoundary : Prog string :=
  digits <- randomHexDigits ;;
  Ret ("ObsidianBoundary" ++ digits).

(** [error.message || t('UNKNOWN_ERROR')]. *)
Definition messageOrUnknown (e : JsError) : string :=
  if (err_message e =? "") then t "UNKNOWN_ERROR" else err_message e.

(** The request of [uploadImage], lines 22-52: the multipart body is the
    file part, the file bytes, the two form fields and the closing
    boundary, each written where the one before ends. *)
Definition uploadRequest (file : TFile) (imgfile : list byte)
    (boundary : string) : RequestUrlParam :=
  let sBoundary := "--" ++ boundary ++ CRLF in
  let imgForm :=
    sBoundary ++ "Content-Disposition: form-data; name=" ++ DQ ++ "file"
      ++ DQ ++ "; filename=" ++ DQ ++ file_name file ++ DQ ++ CRLF
      ++ "Content-Type: image/" ++ extension file ++ CRLF ++ CRLF in
  let body1 :=
    "" ++ (CRLF ++ sBoundary ++ "Content-Disposition: form-data; name="
             ++ DQ ++ "type" ++ DQ ++ CRLF ++ CRLF ++ "composer" ++ CRLF) in
  let body2 :=
    body1 ++ (sBoundary ++ "Content-Disposition: form-data; name="
                ++ DQ ++ "synchronous" ++ DQ ++ CRLF ++ CRLF ++ "true"
                ++ CRLF) in
  let eBoundary := CRLF ++ "--" ++ boundary ++ "--" ++ CRLF in
  let formDataArray :=
    (encode imgForm ++ imgfile ++ encode body2 ++ encode eBoundary)%list in
  {| url := interpolate (baseUrl settings) ++ "/uploads.json";
     method := "POST";
     contentType := None;
     body := Some (Buffer formDataArray);
     headers :=
       [("User-Api-Key", userApiKey settings);
        ("Content-Type",
         Some ("multipart/form-data; boundary=" ++ boundary))];
     throw := false |}.

(** The [fullUrl] of an upload, lines 56-69, from [jsonResponse.url]. *)
Definition deriveFullUrl (u : JValue) : Prog JValue :=
  if truthy u then
    http <- callStartsWith u "http://" ;;
    absolute <- (if http : bool then Ret true
                 else callStartsWith u "https://") ;;
    if absolute : bool then Ret u
    else
      match baseUrl settings with
      | None =>
          Throw (TypeError
                   "Cannot read properties of undefined (reading 'replace')")
      | Some b =>
          let base := replaceTrailingSlash b in
          slash <- callStartsWith u "/" ;;
          let urlPath :=
            if slash : bool then toString u else "/" ++ toString u in
          Ret (JStr (base ++ urlPath))
      end
  else Ret JUndefined.

(** [uploadImage(file)], lines 18-83; [None] is [null]. *)
Definition uploadImage (file : TFile) : Prog (option UploadResult) :=
  tryCatch
    (imgfile <- readBinary file ;;
     boundary <- genBoundary ;;
     response <- requestUrl (uploadRequest file imgfile boundary) ;;
     if (status response =? 200)%Z then
       jsonResponse <- getJson response ;;
       u <- get jsonResponse "url" ;;
       full <- deriveFullUrl u ;;
       short <- get jsonResponse "short_url" ;;
       Ret (Some {| shortUrl := short; fullUrl := full |})
     else
       notify ("Error uploading image: " ++ string_of_Z (status response)) ;;;
       Ret None)
    (fun error =>
       notify ("Exception while uploading image: " ++ errorToString error) ;;;
       Ret None).

(** [tags || []] in a request body. *)
Definition tagsOrEmpty (tags : option (list string)) : JValue :=
  match tags with
  | Some l => JArr (map JStr l)
  | None => JArr []
  end.

(** The failure branch of [createPost] (lines 123-146) and of [updatePost]
    (lines 203-226): the same statements, with [key] the message key.  The
    [try] block either returns a result or falls through to the statement
    after it. *)
Definition errorResult (key : string) (response : RequestUrlResponse)
  : Prog PostResult :=
  let generic :=
    failure (JStr (t key ++ " (" ++ string_of_Z (status response) ++ ")")) in
  returned <-
    tryCatch
      (errorResponse <- getJson response ;;
       errors <- get errorResponse "errors" ;;
       nonEmpty <- (if truthy errors then
                      len <- get errors "length" ;; greaterThanZero len
                    else Ret false) ;;
       if nonEmpty : bool then
         joined <- callJoin errors LF ;;
         Ret (Some (failure joined))
       else
         err <- get errorResponse "error" ;;
         if truthy err then Ret (Some (failure err)) else Ret None)
      (fun parseError => Ret (Some generic)) ;;
  match returned with
  | Some result => Ret result
  | None => Ret generic
  end.

(** The request of [createPost], lines 87-106. *)
Definition createRequest (title content : string) (category : Z)
    (tags : option (list string)) : RequestUrlParam :=
  {| url := interpolate (baseUrl settings) ++ "/posts.json";
     method := "POST";
     contentType := Some "application/json";
     body := Some (Stringified
               (JObj [("title", JStr title);
                      ("raw", JStr content);
                      ("category", JNum category);
                      ("tags", tagsOrEmpty tags)]));
     headers := [("User-Api-Key", userApiKey settings);
                 ("Content-Type", Some "application/json")];
     throw := false |}.

(** [createPost(title, content, category, tags)], lines 86-154. *)
Definition createPost (title content : string) (category : Z)
    (tags : option (list string)) : Prog PostResult :=
  tryCatch
    (response <- requestUrl (createRequest title content category tags) ;;
     if (status response =? 200)%Z then
       responseData <- getJson response ;;
       hasId <- and responseData (get responseData "id") ;;
       if truthy hasId then
         pid <- get responseData "id" ;;
         tid <- get responseData "topic_id" ;;
         Ret {| success := true;
                postId := Some pid;
                topicId := Some tid;
                error := None |}
       else
         Ret (failure (JStr (t "POST_ID_ERROR")))
     else
       errorResult "PUBLISH_FAILED" response)
    (fun error =>
       Ret (failure (JStr (t "PUBLISH_FAILED" ++ ": "
                             ++ messageOrUnknown error)))).

(** The two requests of [updatePost]. *)
Definition postPut (postId : Z) (content : string) : RequestUrlParam :=
  {| url := interpolate (baseUrl settings) ++ "/posts/" ++ string_of_Z postId;
     method := "PUT";
     contentType := Some "application/json";
     body := Some (Stringified
               (JObj [("raw", JStr content);
                      ("edit_reason", JStr "Updated from Obsidian")]));
     headers := [("User-Api-Key", userApiKey settings);
                 ("Content-Type", Some "application/json")];
     throw := false |}.

Definition topicPut (topicId : Z) (title : string) (category : Z)
    (tags : option (list string)) : RequestUrlParam :=
  {| url := interpolate (baseUrl settings) ++ "/t/" ++ string_of_Z topicId;
     method := "PUT";
     contentType := Some "application/json";
     body := Some (Stringified
               (JObj [("title", JStr title);
                      ("category_id", JNum category);
                      ("tags", tagsOrEmpty tags)]));
     headers := [("User-Api-Key", userApiKey settings);
                 ("Content-Type", Some "application/json")];
     throw := false |}.

(** [updatePost(postId, topicId, title, content, category, tags)], lines
    157-234. *)
Definition updatePost (postId topicId : Z) (title content : string)
    (category : Z) (tags : option (list string)) : Prog PostResult :=
  tryCatch
    (postResponse <- requestUrl (postPut postId content) ;;
     if negb (status postResponse =? 200)%Z then
       Ret (failure (JStr (t "UPDATE_FAILED" ++ " ("
                             ++ string_of_Z (status postResponse) ++ ")")))
     else
       topicResponse <- requestUrl (topicPut topicId title category tags) ;;
       if (status topicResponse =? 200)%Z then
         Ret {| success := true; postId := None; topicId := None;
                error := None |}
       else
         errorResult "UPDATE_FAILED" topicResponse)
    (fun error =>
       Ret (failure (JStr (t "UPDATE_FAILED" ++ ": "
                             ++ messageOrUnknown error)))).

(** A [GET] with the API key as its only header. *)
Definition getRequest (path : string) : RequestUrlParam :=
  {| url := interpolate (baseUrl settings) ++ path;
     method := "GET";
     contentType := None;
     body := None;
     headers := [("User-Api-Key", userApiKey settings)];
     throw := false |}.

(** The callback of the inner loop of [fetchCategories], lines 264-269:
    it pushes onto the local array [categories]. *)
Definition pushSubcategory (category subcategory : JValue)
    (categories : list Category) : Prog (list Category) :=
  sid <- get subcategory "id" ;;
  pname <- get category "name" ;;
  sname <- get subcategory "name" ;;
  Ret (categories
         ++ [{| id := sid;
                name := JStr (toString pname ++ " > "
                                ++ toString sname) |}])%list.

(** The callback of the outer loop, lines 256-271. *)
Definition pushCategory (category : JValue) (categories : list Category)
  : Prog (list Category) :=
  cid <- get category "id" ;;
  cname <- get category "name" ;;
  let categories := (categories ++ [{| id := cid; name := cname |}])%list in
  subs <- get category "subcategory_list" ;;
  if truthy subs then forEach subs (pushSubcategory category) categories
  else Ret categories.

(** [fetchCategories()], lines 237-283. *)
Definition fetchCategories : Prog (list Category) :=
  tryCatch
    (response <- requestUrl
         (getRequest "/categories.json?include_subcategories=true") ;;
     if (status response =? 200)%Z then
       data <- getJson response ;;
       let categories : list Category := [] in
       hasList <- and data (get data "category_list") ;;
       hasCategories <- and hasList
                          (category_list <- get data "category_list" ;;
                           get category_list "categories") ;;
       categories <-
         (if truthy hasCategories then
            category_list <- get data "category_list" ;;
            cats <- get category_list "categories" ;;
            forEach cats pushCategory categories
          else Ret categories) ;;
       Ret categories
     else
       notify ("Error fetching categories: "
                 ++ string_of_Z (status response)) ;;;
       Ret [])
    (fun error =>
       notify ("Exception while fetching categories: "
                 ++ errorToString error) ;;;
       Ret []).

(** [checkCanCreateTags()], lines 355-380. *)
Definition checkCanCreateTags : Prog JValue :=
  tryCatch
    (response <- requestUrl (getRequest "/site.json") ;;
     if (status response =? 200)%Z then
       data <- getJson response ;;
       can <- and data (get data "can_create_tag") ;;
       if truthy can then get data "can_create_tag"
       else Ret (JBool false)
     else Ret (JBool false))
    (fun error => Ret (JBool false)).

(** The first loop of [fetchTags], lines 311-313. *)
Definition addTag (tag : JValue) (allTags : TagMap) : Prog TagMap :=
  key <- get tag "name" ;;
  tname <- get tag "name" ;;
  c <- get tag "count" ;;
  Ret (mapSet allTags {| entry_name := tname; count := or c (JNum 0) |}).

(** The callback of the innermost loop, lines 319-327. *)
Definition mergeTag (tag : JValue) (allTags : TagMap) : Prog TagMap :=
  key <- get tag "name" ;;
  match mapGet allTags key with
  | Some existing =>
      c <- get tag "count" ;;
      m <- mathMax (count existing) (or c (JNum 0)) ;;
      Ret (setCount allTags key m)
  | None =>
      key' <- get tag "name" ;;
      tname <- get tag "name" ;;
      c <- get tag "count" ;;
      Ret (mapSet allTags {| entry_name := tname; count := or c (JNum 0) |})
  end.

(** The callback of the loop over [tag_groups], lines 317-329. *)
Definition mergeGroup (group : JValue) (allTags : TagMap) : Prog TagMap :=
  gtags <- get group "tags" ;;
  if truthy gtags then forEach gtags mergeTag allTags
  else Ret allTags.

(** The map [allTags] once both sources are in, lines 308-330. *)
Definition mergeTags (data : JValue) : Prog TagMap :=
  top <- get data "tags" ;;
  allTags <- forEach top addTag [] ;;
  extras <- get data "extras" ;;
  hasGroups <- and extras (e <- get data "extras" ;; get e "tag_groups") ;;
  if truthy hasGroups then
    e <- get data "extras" ;;
    groups <- get e "tag_groups" ;;
    forEach groups mergeGroup allTags
  else Ret allTags.

(** The number [sort] compares an entry by.  With a count that is no
    number the comparator is not consistent, which is not modelled. *)
Definition sortKey (e : TagCount) : Prog (Z * TagCount) :=
  n <- toNumber (count e) ;;
  match n with
  | Finite z => Ret (z, e)
  | NaN => Unmodelled
  end.

Fixpoint sortKeys (l : list TagCount) : Prog (list (Z * TagCount)) :=
  match l with
  | [] => Ret []
  | e :: rest =>
      k <- sortKey e ;;
      ks <- sortKeys rest ;;
      Ret (k :: ks)
  end.

(** [Array.from(allTags.values()).sort((a, b) => b.count - a.count)]. *)
Definition sortByCount (allTags : TagMap) : Prog (list TagCount) :=
  keyed <- sortKeys allTags ;;
  Ret (map snd (sortDesc keyed)).

(** [fetchTags()], lines 286-352. *)
Definition fetchTags : Prog (list Tag) :=
  tryCatch
    (response <- requestUrl (getRequest "/tags.json") ;;
     if (status response =? 200)%Z then
       data <- getJson response ;;
       let tags : list Tag := [] in
       hasTags <- and data (get data "tags") ;;
       if truthy hasTags then
         canCreateTags <- checkCanCreateTags ;;
         allTags <- mergeTags data ;;
         sorted <- sortByCount allTags ;;
         let sortedTags :=
           map (fun tag => {| tag_name := entry_name tag;
                              canCreate := canCreateTags |}) sorted in
         Ret (tags ++ sortedTags)%list
       else Ret tags
     else
       notify ("Error fetching tags: " ++ string_of_Z (status response)) ;;;
       Ret [])
    (fun error =>
       notify ("Exception while fetching tags: " ++ errorToString error) ;;;
       Ret []).

(** [testApiKey()], lines 383-429. *)
Definition testApiKey : Prog TestResult :=
  if unset (baseUrl settings) || unset (userApiKey settings) then
    Ret {| test_success := false; message := t "MISSING_SETTINGS" |}
  else
    tryCatch
      (response <- requestUrl (getRequest "/site.json") ;;
       if (status response =? 200)%Z then
         data <- getJson response ;;
         if truthy data then
           Ret {| test_success := true; message := t "API_TEST_SUCCESS" |}
         else
           Ret {| test_success := false; message := t "API_KEY_INVALID" |}
       else
         Ret {| test_success := false;
                message := t "API_KEY_INVALID" ++ " ("
                             ++ string_of_Z (status response) ++ ")" |})
      (fun error =>
         Ret {| test_success := false;
                message := t "API_KEY_INVALID" ++ ": "
                             ++ messageOrUnknown error |}).

(** [fetchTopicInfo(topicId)], lines 432-459. *)
Definition fetchTopicInfo (topicId : Z) : Prog TopicInfo :=
  tryCatch
    (response <- requestUrl
         (getRequest ("/t/" ++ string_of_Z topicId ++ ".json")) ;;
     if (status response =? 200)%Z then
       data <- getJson response ;;
       tg <- getOptional data "tags" ;;
       cid <- getOptional data "category_id" ;;
       Ret {| tags := or tg (JArr []); categoryId := Some cid |}
     else
       Ret {| tags := JArr []; categoryId := None |})
    (fun error =>
       notify ("Exception while fetching topic info: "
                 ++ errorToString error) ;;;
       Ret {| tags := JArr []; categoryId := None |}).

(** [fetchTopicTags(topicId)], lines 462-470. *)
Definition fetchTopicTags (topicId : Z) : Prog JValue :=
  tryCatch
    (topicInfo <- fetchTopicInfo topicId ;;
     Ret (tags topicInfo))
    (fun error =>
       notify ("Exception while fetching topic tags: "
                 ++ errorToString error) ;;;
       Ret (JArr [])).

End DiscourseAPI.

(** ** Vocabulary of the statements *)

(** The body of a response has a truthy property [p]: the getter parses the
    body, and reading [p] from it gives a truthy value. *)
Definition hasTruthy (body : Outcome JValue) (p : string) (v : JValue) : Prop :=
  exists data, body = Done data /\ get data p = Ret v /\ truthy v = true.

(** The body of a response has no truthy property [p]. *)
Definition lacksTruthy (body : Outcome JValue) (p : string) : Prop :=
  forall v, ~ hasTruthy body p v.

(** A request made at [tr] ends in an exception [e] inside a method that
    reads the body of a 200 response only: the request itself throws, or the
    [json] getter of the 200 response does. *)
Definition throwsAt (w : World) (tr : Trace) (r : RequestUrlParam)
    (e : JsError) : Prop :=
  network w tr r = Raised e
  \/ exists resp, network w tr r = Done resp
                  /\ status resp = 200%Z /\ json resp = Raised e.

(** A call of [createPost] or [updatePost] succeeds. *)
Definition succeeds (c : Completion PostResult) : Prop :=
  exists r, c = Returned r /\ success r = true.

(** The body of a response holds a numeric [id], the condition of success
    in the words of the specification. *)
Definition hasNumericId (body : Outcome JValue) : Prop :=
  exists data n, body = Done data /\ get data "id" = Ret (JNum n).


(** The guard [errors && errors.length > 0] of the failure branch
    (lines 125 and 205), as a truth value; [None] where the comparison asks
    for the numeric value of a string, an array or an object. *)
Definition errorsGuard (errors : JValue) : option bool :=
  if truthy errors then
    match get errors "length" with
    | Ret len =>
        match greaterThanZero len with
        | Ret b => Some b
        | _ => None
        end
    | _ => None
    end
  else Some false.

(** [u] starts with [http://] or [https://]. *)
Definition isAbsolute (u : string) : bool :=
  startsWith u "http://" || startsWith u "https://".

(** [s] ends with [suffix]. *)
Fixpoint endsWith (suffix s : string) : bool :=
  if (s =? suffix) then true
  else match s with
       | EmptyString => false
       | String _ rest => endsWith suffix rest
       end.

(** [s] without the slashes that end it. *)
Fixpoint dropTrailingSlashes (s : string) : string :=
  match s with
  | EmptyString => EmptyString
  | String c rest =>
      let rest' := dropTrailingSlashes rest in
      if (c =? "/")%char && (rest' =? "") then EmptyString
      else String c rest'
  end.

(** [s] without the slashes that start it. *)
Fixpoint dropLeadingSlashes (s : string) : string :=
  match s with
  | EmptyString => EmptyString
  | String c rest =>
      if (c =? "/")%char then dropLeadingSlashes rest else s
  end.

(** The full URL in the words of the specification: the base without any
    trailing slash, one slash, and the path without any leading slash. *)
Definition specFullUrl (base path : string) : string :=
  dropTrailingSlashes base ++ "/" ++ dropLeadingSlashes path.

(** *** The categories response *)

(** A subcategory and a category as categories.json gives them; a category
    without [subcategory_list] has no subcategories. *)
Record SubcategoryJson : Type := mkSubcategoryJson {
  sub_id : Z;
  sub_name : string
}.

Record CategoryJson : Type := mkCategoryJson {
  cat_id : Z;
  cat_name : string;
  subcategories : list SubcategoryJson
}.

(** A value reads as a subcategory, a category, a categories body: the
    properties the client reads have these values, whatever else the value
    holds. *)
Definition subcategoryView (j : JValue) (s : SubcategoryJson) : Prop :=
  get j "id" = Ret (JNum (sub_id s))
  /\ get j "name" = Ret (JStr (sub_name s)).

Definition categoryView (j : JValue) (c : CategoryJson) : Prop :=
  get j "id" = Ret (JNum (cat_id c))
  /\ get j "name" = Ret (JStr (cat_name c))
  /\ exists subs,
       get j "subcategory_list" = Ret subs
       /\ ((truthy subs = false /\ subcategories c = [])
           \/ exists js, subs = JArr js
                         /\ Forall2 subcategoryView js (subcategories c)).

Definition categoriesView (data : JValue) (cats : list CategoryJson) : Prop :=
  exists category_list js,
    get data "category_list" = Ret category_list
    /\ get category_list "categories" = Ret (JArr js)
    /\ Forall2 categoryView js cats.

(** The entries of a category in the result: the category, then its
    subcategories under the name of both. *)
Definition parentEntry (c : CategoryJson) : Category :=
  {| id := JNum (cat_id c); name := JStr (cat_name c) |}.

Definition childEntry (c : CategoryJson) (s : SubcategoryJson) : Category :=
  {| id := JNum (sub_id s);
     name := JStr (cat_name c ++ " > " ++ sub_name s) |}.

Definition flattenCategory (c : CategoryJson) : list Category :=
  parentEntry c :: map (childEntry c) (subcategories c).

(** *** The tags response *)

(** A tag as tags.json gives it, at the top level or inside a tag group; a
    tag without a count, or with a falsy one, counts as used 0 times. *)
Record TagJson : Type := mkTagJson {
  tj_name : string;
  tj_count : Z
}.

Definition tagView (j : JValue) (tg : TagJson) : Prop :=
  get j "name" = Ret (JStr (tj_name tg))
  /\ exists c,
       get j "count" = Ret c
       /\ (c = JNum (tj_count tg)
           \/ (truthy c = false /\ tj_count tg = 0%Z)).

(** A tag group with its tags; a group without a truthy [tags] has none. *)
Definition groupView (j : JValue) (g : list TagJson) : Prop :=
  exists gt,
    get j "tags" = Ret gt
    /\ ((truthy gt = false /\ g = [])
        \/ exists js, gt = JArr js /\ Forall2 tagView js g).

(** A body with the top-level tags [top] and the tag groups [groups]; a
    body without a truthy [extras.tag_groups] has no group. *)
Definition tagsView (data : JValue) (top : list TagJson)
    (groups : list (list TagJson)) : Prop :=
  (exists js, get data "tags" = Ret (JArr js) /\ Forall2 tagView js top)
  /\ exists extras,
       get data "extras" = Ret extras
       /\ ((truthy extras = false /\ groups = [])
           \/ (truthy extras = true
               /\ exists tgs,
                    get extras "tag_groups" = Ret tgs
                    /\ ((truthy tgs = false /\ groups = [])
                        \/ exists gs, tgs = JArr gs
                                      /\ Forall2 groupView gs groups))).

(** The counts a name has in a list of tags, in the order of the list. *)
Definition countsOf (l : list TagJson) (n : string) : list Z :=
  map tj_count (filter (fun tg => (tj_name tg =? n)) l).

(** The count a name ends with: the maximum of the count of its last
    top-level occurrence and of all its counts in the groups; for a name
    that is in the groups only, the maximum of those. *)
Definition expectedCount (top : list TagJson) (groups : list (list TagJson))
    (n : string) : option Z :=
  match last (map Some (countsOf top n)) None, countsOf (List.concat groups) n with
  | Some a, grp => Some (fold_left Z.max grp a)
  | None, b :: bs => Some (fold_left Z.max bs b)
  | None, [] => None
  end.

(** The number in the [count] of an entry. *)
Definition countZ (e : TagCount) : Z :=
  match count e with
  | JNum z => z
  | _ => 0%Z
  end.

(** *** The map [allTags] on names and numbers *)

(** The map when every name is a string and every count a number. *)
Definition TypedMap : Type := list (string * Z).

Definition entry (p : string * Z) : TagCount :=
  {| entry_name := JStr (fst p); count := JNum (snd p) |}.

Definition represent (tm : TypedMap) : TagMap := map entry tm.

Fixpoint tGet (tm : TypedMap) (n : string) : option Z :=
  match tm with
  | [] => None
  | (k, c) :: rest => if (k =? n) then Some c else tGet rest n
  end.

Fixpoint tSet (tm : TypedMap) (n : string) (c : Z) : TypedMap :=
  match tm with
  | [] => [(n, c)]
  | (k, c') :: rest =>
      if (k =? n) then (k, c) :: rest else (k, c') :: tSet rest n c
  end.

Definition tAdd (tm : TypedMap) (tg : TagJson) : TypedMap :=
  tSet tm (tj_name tg) (tj_count tg).

Definition tMerge (tm : TypedMap) (tg : TagJson) : TypedMap :=
  match tGet tm (tj_name tg) with
  | Some c => tSet tm (tj_name tg) (Z.max c (tj_count tg))
  | None => tSet tm (tj_name tg) (tj_count tg)
  end.

(** The entries of a typed map with the keys [sort] compares them by. *)
Definition keyed (tm : TypedMap) : list (Z * TagCount) :=
  map (fun p => (snd p, entry p)) tm.

(** A list of keyed entries is in descending order of the keys. *)
Definition descending : list (Z * TagCount) -> Prop :=
  StronglySorted (fun a b => (fst b <= fst a)%Z).

(** Every value a program can return satisfies [P], whatever the host
    answers. *)
Fixpoint ensures {A : Type} (P : A -> Prop) (p : Prog A) : Prop :=
  match p with
  | Ret a => P a
  | Throw _ => True
  | Unmodelled => True
  | RequestUrl _ k => forall o, ensures P (k o)
  | ReadBinary _ k => forall o, ensures P (k o)
  | MathRandom k => forall s, ensures P (k s)
  | NotifyUser _ k => ensures P k
  end.

(** ** Hosts and settings of the examples *)

(** A host that answers every request with [o], reads every file as empty
    and draws the empty digit string. *)
Definition constantWorld (o : Outcome RequestUrlResponse) : World :=
  {| network := fun _ _ => o;
     vault := fun _ _ => Done [];
     random := fun _ => "" |}.

(** A host that answers a request from its URL alone. *)
Definition routedWorld (route : string -> Outcome RequestUrlResponse) : World :=
  {| network := fun _ r => route (url r);
     vault := fun _ _ => Done [];
     random := fun _ => "" |}.

Definition ok (data : JValue) : Outcome RequestUrlResponse :=
  Done {| status := 200; json := Done data |}.

Definition failed (code : Z) (data : JValue) : Outcome RequestUrlResponse :=
  Done {| status := code; json := Done data |}.

Definition forum : DiscourseSyncSettings :=
  {| baseUrl := Some "https://forum.example.com";
     userApiKey := Some "key" |}.

(** A translation that shows the key itself. *)
Definition keyText (key : string) : string := key.

Definition forumWithSlash : DiscourseSyncSettings :=
  {| baseUrl := Some "https://forum.example.com/";
     userApiKey := Some "key" |}.

Definition noBaseUrl : DiscourseSyncSettings :=
  {| baseUrl := Some ""; userApiKey := Some "key" |}.

Definition picture : TFile := {| file_name := "a.png"; extension := "png" |}.

(** Bodies of the examples. *)
Definition tagObject (n : string) (c : Z) : JValue :=
  JObj [("name", JStr n); ("count", JNum c)].

Definition tagsBody : JValue :=
  JObj [("tags", JArr [tagObject "a" 5]);
        ("extras",
         JObj [("tag_groups", JArr [JObj [("tags", JArr [tagObject "a" 10])]])])].

Definition siteBody : JValue := JObj [("can_create_tag", JBool true)].

Definition categoriesBody : JValue :=
  JObj [("category_list",
         JObj [("categories",
                JArr [JObj [("id", JNum 1);
                            ("name", JStr "Parent");
                            ("subcategory_list",
                             JArr [JObj [("id", JNum 2); ("name", JStr "One")];
                                   JObj [("id", JNum 3); ("name", JStr "Two")]])]])])].

(** A forum that serves [tagsBody] and [siteBody]. *)
Definition tagsForum : World :=
  routedWorld (fun u => if endsWith "/site.json" u then ok siteBody
                        else ok tagsBody).

Definition parentCategory : CategoryJson :=
  {| cat_id := 1; cat_name := "Parent";
     subcategories := [{| sub_id := 2; sub_name := "One" |};
                       {| sub_id := 3; sub_name := "Two" |}] |}.

(** ** What a call does, whatever the host answers *)

(** A program that makes no host call. *)
Definition silent {A : Type} (p : Prog A) : Prop :=
  match p with
  | Ret _ | Throw _ | Unmodelled => True
  | _ => False
  end.

(** A program that makes no host call and ends in a value or an exception:
    nothing in it is outside the model. *)
Definition definite {A : Type} (p : Prog A) : Prop :=
  match p with
  | Ret _ | Throw _ => True
  | _ => False
  end.

(** A call did not end in an exception. *)
Definition notThrown {A : Type} (c : Completion A) : Prop :=
  match c with
  | Threw _ => False
  | _ => True
  end.

(** A result of [createPost] is a success with a truthy post id and no
    error, or a failure with an error and no id.  Nothing is asked of the
    topic id of a success: it is what the body has as [topic_id],
    [undefined] when the body has none. *)
Definition createResult (res : PostResult) : Prop :=
  (success res = true /\ error res = None
   /\ exists pid, postId res = Some pid /\ truthy pid = true)
  \/ (success res = false /\ error res <> None
      /\ postId res = None /\ topicId res = None).

(** The guard of the failure branch is decided on the answer [resp]: when
    its body parses and has [errors], the comparison [errors.length > 0]
    asks for no numeric value of a string, an array or an object. *)
Definition guardDecided (resp : RequestUrlResponse) : Prop :=
  forall data errors,
    json resp = Done data -> get data "errors" = Ret errors ->
    errorsGuard errors <> None.

(** A result of [updatePost] is a bare success, or a failure with an
    error. *)
Definition updateResult (res : PostResult) : Prop :=
  postId res = None /\ topicId res = None
  /\ ((success res = true /\ error res = None)
      \/ (success res = false /\ error res <> None)).

(** A result is a failure with an error and nothing else. *)
Definition isFailure (res : PostResult) : Prop :=
  exists e, res = failure e.

(** ** The multipart body of an upload, as the source builds it *)

Definition RangeError (msg : string) : JsError := mkError "RangeError" msg.

(** [new Uint8Array(n)]: [n] zero bytes. *)
Definition newUint8Array (n : nat) : list byte := repeat x00 n.

(** [target.set(source, offset)]: the bytes of [source] are written over
    those of [target] from [offset] on, and the length of [target] stays;
    a source that does not fit is a [RangeError]. *)
Definition typedArraySet (target source : list byte) (offset : nat)
  : Outcome (list byte) :=
  if (offset + List.length source <=? List.length target)%nat then
    Done (firstn offset target ++ source
            ++ skipn (offset + List.length source) target)%list
  else Raised (RangeError "offset is out of bounds").

(** The next statement of a block that the one before may have left by an
    exception. *)
Definition andThen {A B : Type} (o : Outcome A) (k : A -> Outcome B)
  : Outcome B :=
  match o with
  | Done a => k a
  | Raised e => Raised e
  end.

(** Lines 33-38: the array is allocated for the four parts, and each part
    is written at its offset. *)
Definition formDataArray
    (imgFormArray imgfile bodyArray endBoundaryArray : list byte)
  : Outcome (list byte) :=
  let a0 :=
    newUint8Array (List.length imgFormArray + List.length imgfile
                   + List.length bodyArray + List.length endBoundaryArray) in
  andThen (typedArraySet a0 imgFormArray 0) (fun a1 =>
  andThen (typedArraySet a1 imgfile (List.length imgFormArray)) (fun a2 =>
  andThen (typedArraySet a2 bodyArray
             (List.length imgFormArray + List.length imgfile)) (fun a3 =>
  typedArraySet a3 endBoundaryArray
    (List.length imgFormArray + List.length bodyArray
     + List.length imgfile)))).

(** Lines 22-29: the texts around the file. *)
Definition sBoundary (boundary : string) : string := "--" ++ boundary ++ CRLF.

Definition imgForm (file : TFile) (boundary : string) : string :=
  sBoundary boundary ++ "Content-Disposition: form-data; name=" ++ DQ
    ++ "file" ++ DQ ++ "; filename=" ++ DQ ++ file_name file ++ DQ ++ CRLF
    ++ "Content-Type: image/" ++ extension file ++ CRLF ++ CRLF.

Definition formBody (boundary : string) : string :=
  ("" ++ (CRLF ++ sBoundary boundary
            ++ "Content-Disposition: form-data; name=" ++ DQ ++ "type" ++ DQ
            ++ CRLF ++ CRLF ++ "composer" ++ CRLF))
    ++ (sBoundary boundary ++ "Content-Disposition: form-data; name=" ++ DQ
          ++ "synchronous" ++ DQ ++ CRLF ++ CRLF ++ "true" ++ CRLF).

Definition eBoundary (boundary : string) : string :=
  CRLF ++ "--" ++ boundary ++ "--" ++ CRLF.

(** ** What [uploadImage] leaves in the trace *)

(** The notification of the [catch] of [uploadImage]. *)
Definition uploadException (e : JsError) : Event :=
  Notified ("Exception while uploading image: " ++ errorToString e).

(** A host for the examples: it reads the bytes [bytes] of every file,
    draws the digits [digits] and answers every request with [o]. *)
Definition vaultWorld (bytes : Outcome (list byte)) (digits : string)
    (o : Outcome RequestUrlResponse) : World :=
  {| network := fun _ _ => o;
     vault := fun _ _ => bytes;
     random := fun _ => digits |}.

(** A host that answers the first request of a call with [first] and the
    later ones with [later]. *)
Definition twoStepWorld (first later : Outcome RequestUrlResponse) : World :=
  {| network := fun tr _ => match requests tr with
                            | [] => first
                            | _ => later
                            end;
     vault := fun _ _ => Done [];
     random := fun _ => "" |}.

(** ** What the read methods leave in the trace *)

(** [sends P p]: on every host, every request [p] makes satisfies [P]. *)
Fixpoint sends {A : Type} (P : RequestUrlParam -> Prop) (p : Prog A) : Prop :=
  match p with
  | Ret _ | Throw _ | Unmodelled => True
  | RequestUrl r k => P r /\ forall o, sends P (k o)
  | ReadBinary _ k => forall o, sends P (k o)
  | MathRandom k => forall s, sends P (k s)
  | NotifyUser _ k => sends P k
  end.

(** [headers[name]]. *)
Fixpoint header (name : string) (hs : list (string * option string))
  : option (option string) :=
  match hs with
  | [] => None
  | (k, v) :: rest => if (k =? name) then Some v else header name rest
  end.

(** A request of the client as the forum expects it: under the base URL of
    the settings, with the key of the settings as [User-Api-Key], and with
    an error status answered, not thrown. *)
Definition authorised (settings : DiscourseSyncSettings)
    (r : RequestUrlParam) : Prop :=
  startsWith (url r) (interpolate (baseUrl settings)) = true
  /\ header "User-Api-Key" (headers r) = Some (userApiKey settings)
  /\ throw r = false.

(** The number [sort] compares an entry by is [c]. *)
Definition sameCount (c : Z) (e : TagCount) : bool :=
  match toNumber (count e) with
  | Ret (Finite z) => (z =? c)%Z
  | _ => false
  end.

(** What [fetchCategories] does with the body of a 200 answer,
    lines 252-273. *)
Definition categoriesOf (data : JValue) : Prog (list Category) :=
  hasList <- and data (get data "category_list") ;;
  hasCategories <- and hasList
                     (category_list <- get data "category_list" ;;
                      get category_list "categories") ;;
  categories <-
    (if truthy hasCategories then
       category_list <- get data "category_list" ;;
       cats <- get category_list "categories" ;;
       forEach cats pushCategory []
     else Ret []) ;;
  Ret categories.

(** What [fetchTags] does once the probe has returned [canCreateTags],
    lines 305-339. *)
Definition listTags (canCreateTags : JValue) (data : JValue)
  : Prog (list Tag) :=
  allTags <- mergeTags data ;;
  sorted <- sortByCount allTags ;;
  Ret ([] ++ map (fun tag => {| tag_name := entry_name tag;
                                canCreate := canCreateTags |}) sorted)%list.

(** The notification of the [catch] of [fetchTags]. *)
Definition tagsException (e : JsError) : Event :=
  Notified ("Exception while fetching tags: " ++ errorToString e).

(** The entry [a] does not come after [b] in descending order of the
    numbers [sort] compares them by. *)
Definition notBelow (a b : TagCount) : Prop :=
  exists x y, toNumber (count a) = Ret (Finite x)
              /\ toNumber (count b) = Ret (Finite y) /\ (y <= x)%Z.

(** The key of a keyed entry is the number of its count. *)
Definition keyOf (kp : Z * TagCount) : Prop :=
  toNumber (count (snd kp)) = Ret (Finite (fst kp)).

(** ** Hosts and bodies of the further examples *)


(** A host without network. *)
Definition offline : World :=
  constantWorld (Raised (mkError "Error" "net::ERR_FAILED")).

(** A host on which no file can be read. *)
Definition emptyVault : World :=
  vaultWorld (Raised (mkError "Error" "ENOENT")) "" (ok JNull).

(** Bodies with a [null] entry in their list. *)
Definition brokenCategories : JValue :=
  JObj [("category_list",
         JObj [("categories",
                JArr [JObj [("id", JNum 1); ("name", JStr "Parent")];
                      JNull])])].

Definition brokenTags : JValue :=
  JObj [("tags", JArr [tagObject "a" 5; JNull])].

(** A map with two entries of the same count. *)
Definition threeTags : TagMap :=
  represent [("a", 1%Z); ("b", 2%Z); ("c", 1%Z)].

(** No two of the names are the same key of a [Map]. *)
Fixpoint distinctNames (l : list JValue) : Prop :=
  match l with
  | [] => True
  | a :: rest =>
      Forall (fun b => sameValueZero a b = false) rest /\ distinctNames rest
  end.

(** A forum that rejects a post with its messages by field. *)
Definition fieldErrors : JValue :=
  JObj [("errors", JObj [("title", JArr [JStr "is too short"])]);
        ("error", JStr "rejected")].

(** A forum that accepts the new body of a post and rejects the change of
    the topic with messages by field. *)
Definition fieldRejectingForum : World :=
  twoStepWorld (ok JNull) (failed 422 fieldErrors).

(** ** Facts about programs and values *)

Lemma status_not_200 (n : Z) : n <> 200%Z -> (n =? 200)%Z = false.
Proof. intros H. apply Z.eqb_neq. exact H. Qed.

Lemma unset_spec (s : option string) :
  unset s = true <-> s = None \/ s = Some "".
Proof.
  destruct s as [x|]; simpl.
  - rewrite String.eqb_eq. split.
    + intros ->. right. reflexivity.
    + intros [H|H]; [discriminate | now injection H].
  - split; auto.
Qed.

(** A request inside a [try] block: the request is logged, and the rest
    of the block runs on what the network answers. *)
Lemma run_try_request {A : Type} (w : World) (tr : Trace)
    (r : RequestUrlParam) (k : RequestUrlResponse -> Prog A)
    (h : JsError -> Prog A) :
  run w tr (tryCatch (bind (requestUrl r) k) h)
  = run w (tr ++ [Requested r])%list
      (tryCatch (bind (settle (network w tr r)) k) h).
Proof. reflexivity. Qed.

(** A [try] block that starts with a program [p]: the rest of the block
    runs on what [p] returns, and the handler on what it throws. *)
Lemma run_try_bind {A B : Type} (w : World) (p : Prog A)
    (f : A -> Prog B) (h : JsError -> Prog B) :
  forall tr,
    run w tr (tryCatch (bind p f) h)
    = match run w tr p with
      | (Returned a, tr') => run w tr' (tryCatch (f a) h)
      | (Threw e, tr') => run w tr' (h e)
      | (NotModelled, tr') => (NotModelled, tr')
      end.
Proof.
  induction p; intros tr; simpl; auto.
Qed.

Lemma hasTruthy_truthy_data (body : Outcome JValue) (p : string) (v : JValue) :
  hasTruthy body p v -> exists data, body = Done data /\ truthy data = true.
Proof.
  intros (data & Hb & Hg & Hv). exists data. split; [exact Hb|].
  destruct data; simpl in *; try reflexivity; try discriminate.
  - injection Hg as <-. discriminate Hv.
  - injection Hg as <-. discriminate Hv.
  - destruct (p =? "length"); injection Hg as <-.
    + destruct s; [discriminate Hv | reflexivity].
    + discriminate Hv.
Qed.

Lemma get_of_truthy (data : JValue) (p : string) :
  truthy data = true -> exists x, get data p = Ret x.
Proof.
  destruct data; simpl; try discriminate; intros _; eauto;
    destruct (p =? "length"); eauto.
Qed.

Lemma lacksTruthy_falsy (data x : JValue) (p : string) :
  lacksTruthy (Done data) p -> get data p = Ret x -> truthy x = false.
Proof.
  intros H Hg. destruct (truthy x) eqn:E; [|reflexivity].
  exfalso. apply (H x). exists data. auto.
Qed.

(** [data && data.p] is falsy when the body has no truthy [p]. *)
Lemma and_get_lacking (data : JValue) (p : string) :
  lacksTruthy (Done data) p ->
  exists x, and data (get data p) = Ret x /\ truthy x = false.
Proof.
  intros H. unfold and. destruct (truthy data) eqn:Hd.
  - destruct (get_of_truthy data p Hd) as [x Hx]. exists x.
    split; [exact Hx|]. eapply lacksTruthy_falsy; eauto.
  - exists data. auto.
Qed.

(** [data && data.p] is the truthy [p] of the body when it has one. *)
Lemma and_get_having (data v : JValue) (p : string) :
  hasTruthy (Done data) p v -> and data (get data p) = Ret v.
Proof.
  intros H. destruct (hasTruthy_truthy_data _ _ _ H) as (d & Hd & Ht).
  injection Hd as <-. destruct H as (d & Hd & Hg & _).
  injection Hd as <-. unfold and. rewrite Ht. exact Hg.
Qed.

Lemma not_succeeds_failure (e : JValue) : ~ succeeds (Returned (failure e)).
Proof.
  intros (r & Hr & Hs). injection Hr as <-. discriminate Hs.
Qed.

(** *** What a program can return *)

Lemma ensures_all {A : Type} (P : A -> Prop) (p : Prog A) :
  (forall a, P a) -> ensures P p.
Proof.
  intros H. induction p; simpl; auto.
Qed.

Lemma ensures_bind {A B : Type} (Q : B -> Prop) (p : Prog A)
    (f : A -> Prog B) :
  ensures (fun a => ensures Q (f a)) p -> ensures Q (bind p f).
Proof.
  induction p; simpl; auto.
Qed.

Lemma ensures_tryCatch {A : Type} (P : A -> Prop) (p : Prog A)
    (h : JsError -> Prog A) :
  ensures P p -> (forall e, ensures P (h e)) -> ensures P (tryCatch p h).
Proof.
  intros Hp Hh. induction p; simpl in *; auto.
Qed.

Lemma ensures_run {A : Type} (P : A -> Prop) (p : Prog A) :
  ensures P p ->
  forall (w : World) (tr : Trace) (a : A),
    fst (run w tr p) = Returned a -> P a.
Proof.
  induction p; simpl; intros Hp w tr x Hx;
    try discriminate; eauto.
  injection Hx as <-. exact Hp.
Qed.

Ltac ensure :=
  repeat first
    [ apply ensures_tryCatch; [| intro]
    | apply ensures_bind; apply ensures_all; intro
    | match goal with
      | |- ensures _ (if ?b then _ else _) => destruct b
      | |- ensures _ (match ?o with _ => _ end) => destruct o
      end ];
  simpl; auto.

(** ** Slashes at the join of a URL *)

Lemma dropTrailingSlashes_empty (b : string) :
  dropTrailingSlashes b = "" ->
  b = "" \/ b = "/" \/ endsWith "//" b = true.
Proof.
  induction b as [|c rest IH]; simpl; [auto|].
  destruct (Ascii.eqb_spec c "/") as [->|Hc]; simpl; [|discriminate].
  destruct (String.eqb_spec (dropTrailingSlashes rest) "") as [E|E];
    [|discriminate].
  intros _. right. destruct (IH E) as [-> | [-> | H]].
  - left. reflexivity.
  - right. reflexivity.
  - right. simpl. rewrite H. destruct (rest =? "/"); reflexivity.
Qed.

Lemma endsWith_tail (suffix : string) (c : ascii) (rest : string) :
  endsWith suffix (String c rest) = false -> endsWith suffix rest = false.
Proof.
  change (endsWith suffix (String c rest))
    with (if (String c rest =? suffix) then true else endsWith suffix rest).
  destruct (String c rest =? suffix); [intros H; discriminate H | auto].
Qed.

(** Removing one trailing slash removes them all when the base does not
    end with two. *)
Lemma replaceTrailingSlash_all (b : string) :
  endsWith "//" b = false ->
  replaceTrailingSlash b = dropTrailingSlashes b.
Proof.
  induction b as [|c rest IH]; [reflexivity|].
  intros H. pose proof (endsWith_tail _ _ _ H) as Hrest.
  specialize (IH Hrest).
  destruct rest as [|c' r2].
  - simpl. destruct (c =? "/")%char; reflexivity.
  - change (replaceTrailingSlash (String c (String c' r2)))
      with (String c (replaceTrailingSlash (String c' r2))).
    rewrite IH.
    change (dropTrailingSlashes (String c (String c' r2)))
      with (if (c =? "/")%char
               && (dropTrailingSlashes (String c' r2) =? "")
            then EmptyString
            else String c (dropTrailingSlashes (String c' r2))).
    destruct (String.eqb_spec (dropTrailingSlashes (String c' r2)) "")
      as [E|E].
    + destruct (dropTrailingSlashes_empty _ E) as [H0 | [H0 | H0]].
      * discriminate H0.
      * destruct (Ascii.eqb_spec c "/") as [->|Hc]; [|reflexivity].
        rewrite H0 in H. discriminate H.
      * rewrite H0 in Hrest. discriminate Hrest.
    + rewrite andb_false_r. reflexivity.
Qed.

(** Adding a slash to a path that has none gives one leading slash when
    the path does not start with two. *)
Lemma leading_slash_once (u : string) :
  startsWith u "//" = false ->
  (if startsWith u "/" then u else "/" ++ u)
  = "/" ++ dropLeadingSlashes u.
Proof.
  destruct u as [|c rest]; [reflexivity|].
  simpl.
  destruct (Ascii.eqb_spec c "/") as [->|Hc]; simpl; [|reflexivity].
  destruct rest as [|c' r2]; [reflexivity|].
  simpl.
  destruct (Ascii.eqb_spec c' "/") as [->|Hc']; simpl;
    [intros H; discriminate H | reflexivity].
Qed.

(** The join of [specFullUrl] has one slash: none ends the base part and
    none starts the path part. *)
Lemma dropTrailingSlashes_no_slash (b : string) :
  endsWith "/" (dropTrailingSlashes b) = false.
Proof.
  induction b as [|c rest IH]; [reflexivity|].
  simpl.
  destruct (Ascii.eqb_spec c "/") as [->|Hc];
    destruct (String.eqb_spec (dropTrailingSlashes rest) "") as [E|E];
    simpl; try reflexivity.
  - rewrite IH. destruct (dropTrailingSlashes rest); [contradiction|].
    reflexivity.
  - rewrite E. simpl.
    destruct (Ascii.eqb_spec c "/"); [contradiction | reflexivity].
  - rewrite IH.
    destruct (Ascii.eqb_spec c "/"); [contradiction | reflexivity].
Qed.

Lemma dropLeadingSlashes_no_slash (u : string) :
  startsWith (dropLeadingSlashes u) "/" = false.
Proof.
  induction u as [|c rest IH]; [reflexivity|].
  simpl. destruct (Ascii.eqb_spec c "/") as [->|Hc]; [exact IH|].
  simpl.
  destruct (Ascii.eqb_spec c "/"); [contradiction | reflexivity].
Qed.

(** ** The loops of fetchCategories *)

Lemma forEach_subcategories (category : JValue) (c : CategoryJson)
    (js : list JValue) (subs : list SubcategoryJson) :
  get category "name" = Ret (JStr (cat_name c)) ->
  Forall2 subcategoryView js subs ->
  forall acc,
    forEachItem js (pushSubcategory category) acc
    = Ret (acc ++ map (childEntry c) subs)%list.
Proof.
  intros Hname Hall. induction Hall as [|j s js subs [Hid Hsn] _ IH];
    intros acc.
  - simpl. rewrite app_nil_r. reflexivity.
  - cbn [forEachItem]. unfold pushSubcategory at 1.
    rewrite Hid, Hname, Hsn. cbn [bind toString]. rewrite IH.
    rewrite <- app_assoc. reflexivity.
Qed.

Lemma pushCategory_view (j : JValue) (c : CategoryJson)
    (acc : list Category) :
  categoryView j c ->
  pushCategory j acc = Ret (acc ++ flattenCategory c)%list.
Proof.
  intros (Hid & Hname & subs & Hsubs & Hshape).
  unfold pushCategory. rewrite Hid, Hname, Hsubs. cbn [bind].
  unfold flattenCategory, parentEntry.
  destruct Hshape as [[Hfalse Hnone] | (js & -> & Hall)].
  - rewrite Hfalse, Hnone. reflexivity.
  - cbn [truthy forEach].
    rewrite (forEach_subcategories j c js _ Hname Hall).
    rewrite <- app_assoc. reflexivity.
Qed.

Lemma forEach_categories (js : list JValue) (cats : list CategoryJson) :
  Forall2 categoryView js cats ->
  forall acc,
    forEachItem js pushCategory acc
    = Ret (acc ++ flat_map flattenCategory cats)%list.
Proof.
  intros Hall. induction Hall as [|j c js cats Hview _ IH]; intros acc.
  - simpl. rewrite app_nil_r. reflexivity.
  - cbn [forEachItem]. rewrite (pushCategory_view _ _ _ Hview).
    cbn [bind flat_map]. rewrite IH, <- app_assoc. reflexivity.
Qed.

(** ** The merge of fetchTags on names and numbers *)

Lemma tGet_tSet (tm : TypedMap) (n k : string) (c : Z) :
  tGet (tSet tm n c) k = if (n =? k) then Some c else tGet tm k.
Proof.
  induction tm as [|[k' c'] rest IH]; simpl.
  - reflexivity.
  - destruct (String.eqb_spec k' n) as [->|Hkn]; simpl.
    + destruct (n =? k); reflexivity.
    + rewrite IH. destruct (String.eqb_spec k' k) as [->|Hk].
      * destruct (String.eqb_spec n k) as [->|_]; [contradiction|].
        reflexivity.
      * reflexivity.
Qed.

Lemma in_keys_tSet (tm : TypedMap) (n k : string) (c : Z) :
  In k (map fst (tSet tm n c)) <-> In k (map fst tm) \/ k = n.
Proof.
  induction tm as [|[k' c'] rest IH]; simpl.
  - split.
    + intros [H|[]]. right. symmetry. exact H.
    + intros [[]|H]. left. symmetry. exact H.
  - destruct (String.eqb_spec k' n) as [->|Hkn]; simpl.
    + split; [intros H; left; exact H|].
      intros [H|H]; [exact H | left; symmetry; exact H].
    + rewrite IH. tauto.
Qed.

Lemma NoDup_keys_tSet (tm : TypedMap) (n : string) (c : Z) :
  NoDup (map fst tm) -> NoDup (map fst (tSet tm n c)).
Proof.
  induction tm as [|[k' c'] rest IH]; simpl; intros Hnd.
  - constructor; [intros [] | constructor].
  - inversion Hnd as [|? ? Hnotin Hrest]; subst.
    destruct (String.eqb_spec k' n) as [->|Hkn]; simpl.
    + constructor; assumption.
    + constructor; [|auto].
      rewrite in_keys_tSet. intros [H|H]; [contradiction | congruence].
Qed.

Lemma NoDup_keys_fold (f : TypedMap -> TagJson -> TypedMap)
    (l : list TagJson) :
  (forall tm tg, NoDup (map fst tm) -> NoDup (map fst (f tm tg))) ->
  forall tm, NoDup (map fst tm) -> NoDup (map fst (fold_left f l tm)).
Proof.
  intros Hf. induction l as [|tg rest IH]; simpl; auto.
Qed.

Lemma NoDup_keys_tMerge (tm : TypedMap) (tg : TagJson) :
  NoDup (map fst tm) -> NoDup (map fst (tMerge tm tg)).
Proof.
  unfold tMerge. destruct (tGet tm (tj_name tg));
    apply NoDup_keys_tSet.
Qed.

Lemma tGet_tMerge (tm : TypedMap) (tg : TagJson) (k : string) :
  tGet (tMerge tm tg) k
  = if (tj_name tg =? k)
    then Some (match tGet tm k with
               | Some c => Z.max c (tj_count tg)
               | None => tj_count tg
               end)
    else tGet tm k.
Proof.
  unfold tMerge.
  destruct (String.eqb_spec (tj_name tg) k) as [<-|Hk].
  - destruct (tGet tm (tj_name tg)); rewrite tGet_tSet, String.eqb_refl;
      reflexivity.
  - destruct (tGet tm (tj_name tg)); rewrite tGet_tSet;
      destruct (String.eqb_spec (tj_name tg) k); try contradiction;
      reflexivity.
Qed.

Lemma countsOf_cons (tg : TagJson) (rest : list TagJson) (n : string) :
  countsOf (tg :: rest) n
  = if (tj_name tg =? n) then tj_count tg :: countsOf rest n
    else countsOf rest n.
Proof.
  unfold countsOf. cbn [filter]. destruct (tj_name tg =? n); reflexivity.
Qed.

Lemma last_of_counts (b : Z) (bs : list Z) :
  exists a, last (map Some (b :: bs)) None = Some a.
Proof.
  revert b. induction bs as [|c bs IH]; intros b.
  - exists b. reflexivity.
  - destruct (IH c) as [a Ha]. exists a. exact Ha.
Qed.

(** After the first loop a name has the count of its last occurrence. *)
Lemma tGet_fold_tAdd (top : list TagJson) (n : string) :
  forall tm,
    tGet (fold_left tAdd top tm) n
    = match last (map Some (countsOf top n)) None with
      | Some a => Some a
      | None => tGet tm n
      end.
Proof.
  induction top as [|tg rest IH]; intros tm; [reflexivity|].
  cbn [fold_left]. rewrite IH. unfold tAdd. rewrite tGet_tSet.
  rewrite countsOf_cons.
  destruct (tj_name tg =? n); [|reflexivity].
  destruct (countsOf rest n) as [|b bs]; [reflexivity|].
  destruct (last_of_counts b bs) as [a Ha].
  change (last (map Some (tj_count tg :: b :: bs)) None)
    with (last (map Some (b :: bs)) None).
  rewrite Ha. reflexivity.
Qed.

(** After the second loop a name has the maximum of the count it had and
    of its counts in the groups. *)
Lemma tGet_fold_tMerge (grp : list TagJson) (n : string) :
  forall tm,
    tGet (fold_left tMerge grp tm) n
    = match tGet tm n, countsOf grp n with
      | Some a, l => Some (fold_left Z.max l a)
      | None, b :: bs => Some (fold_left Z.max bs b)
      | None, [] => None
      end.
Proof.
  induction grp as [|tg rest IH]; intros tm.
  - simpl. destruct (tGet tm n); reflexivity.
  - cbn [fold_left]. rewrite IH, tGet_tMerge, countsOf_cons.
    destruct (tj_name tg =? n).
    + destruct (tGet tm n); reflexivity.
    + reflexivity.
Qed.

Lemma tGet_merged (top : list TagJson) (groups : list (list TagJson))
    (n : string) :
  tGet (fold_left tMerge (List.concat groups) (fold_left tAdd top [])) n
  = expectedCount top groups n.
Proof.
  rewrite tGet_fold_tMerge, tGet_fold_tAdd. unfold expectedCount.
  destruct (last (map Some (countsOf top n)) None); reflexivity.
Qed.

(** ** The map of the code on names and numbers *)

Lemma mapGet_represent (tm : TypedMap) (n : string) :
  mapGet (represent tm) (JStr n)
  = option_map (fun c => entry (n, c)) (tGet tm n).
Proof.
  induction tm as [|[k c] rest IH]; simpl; [reflexivity|].
  destruct (String.eqb_spec k n) as [->|Hk]; [reflexivity | exact IH].
Qed.

Lemma mapSet_represent (tm : TypedMap) (n : string) (c : Z) :
  mapSet (represent tm) (entry (n, c)) = represent (tSet tm n c).
Proof.
  induction tm as [|[k c'] rest IH]; simpl; [reflexivity|].
  destruct (String.eqb_spec k n) as [->|Hk]; simpl.
  - reflexivity.
  - rewrite IH. reflexivity.
Qed.

Lemma setCount_represent (tm : TypedMap) (n : string) (c c0 : Z) :
  tGet tm n = Some c0 ->
  setCount (represent tm) (JStr n) (JNum c) = represent (tSet tm n c).
Proof.
  induction tm as [|[k c'] rest IH]; simpl; [discriminate|].
  destruct (String.eqb_spec k n) as [->|Hk]; simpl; intros H.
  - reflexivity.
  - rewrite (IH H). reflexivity.
Qed.

(** [tag.count || 0] for a tag of the response. *)
Lemma or_count (c : JValue) (z : Z) :
  c = JNum z \/ (truthy c = false /\ z = 0%Z) -> or c (JNum 0) = JNum z.
Proof.
  unfold or. intros [-> | [Hf ->]].
  - simpl. destruct (Z.eqb_spec z 0) as [->|_]; reflexivity.
  - rewrite Hf. reflexivity.
Qed.

Lemma addTag_view (j : JValue) (tg : TagJson) (tm : TypedMap) :
  tagView j tg -> addTag j (represent tm) = Ret (represent (tAdd tm tg)).
Proof.
  intros (Hname & c & Hcount & Hc). unfold addTag.
  rewrite Hname, Hcount. cbn [bind]. rewrite (or_count _ _ Hc).
  unfold tAdd. rewrite <- mapSet_represent. reflexivity.
Qed.

Lemma mergeTag_view (j : JValue) (tg : TagJson) (tm : TypedMap) :
  tagView j tg -> mergeTag j (represent tm) = Ret (represent (tMerge tm tg)).
Proof.
  intros (Hname & c & Hcount & Hc). unfold mergeTag, tMerge.
  rewrite Hname. cbn [bind]. rewrite mapGet_represent.
  destruct (tGet tm (tj_name tg)) as [c0|] eqn:Hget; cbn [option_map].
  - rewrite Hcount. cbn [bind]. rewrite (or_count _ _ Hc).
    cbn [entry count snd mathMax toNumber bind].
    rewrite (setCount_represent _ _ _ _ Hget). reflexivity.
  - rewrite Hcount. cbn [bind]. rewrite (or_count _ _ Hc).
    rewrite <- mapSet_represent. reflexivity.
Qed.

Lemma forEach_fold (callback : JValue -> TagMap -> Prog TagMap)
    (f : TypedMap -> TagJson -> TypedMap)
    (js : list JValue) (l : list TagJson) :
  (forall j tg tm, tagView j tg ->
                   callback j (represent tm) = Ret (represent (f tm tg))) ->
  Forall2 tagView js l ->
  forall tm,
    forEachItem js callback (represent tm)
    = Ret (represent (fold_left f l tm)).
Proof.
  intros Hstep Hall. induction Hall as [|j tg js l Hview _ IH]; intros tm.
  - reflexivity.
  - cbn [forEachItem fold_left]. rewrite (Hstep _ _ _ Hview).
    cbn [bind]. apply IH.
Qed.

Lemma mergeGroup_view (j : JValue) (g : list TagJson) (tm : TypedMap) :
  groupView j g ->
  mergeGroup j (represent tm) = Ret (represent (fold_left tMerge g tm)).
Proof.
  intros (gt & Hgt & Hshape). unfold mergeGroup. rewrite Hgt. cbn [bind].
  destruct Hshape as [[Hf ->] | (js & -> & Hall)].
  - rewrite Hf. reflexivity.
  - cbn [truthy forEach]. apply (forEach_fold mergeTag tMerge); auto.
    intros. apply mergeTag_view. assumption.
Qed.

Lemma forEach_groups (gs : list JValue) (groups : list (list TagJson)) :
  Forall2 groupView gs groups ->
  forall tm,
    forEachItem gs mergeGroup (represent tm)
    = Ret (represent (fold_left tMerge (List.concat groups) tm)).
Proof.
  intros Hall. induction Hall as [|j g gs groups Hview _ IH]; intros tm.
  - reflexivity.
  - cbn [forEachItem List.concat]. rewrite (mergeGroup_view _ _ _ Hview).
    cbn [bind]. rewrite IH, fold_left_app. reflexivity.
Qed.

(** The two loops of [fetchTags] on a body that reads as [top] and
    [groups]. *)
Lemma mergeTags_view (data : JValue) (top : list TagJson)
    (groups : list (list TagJson)) :
  tagsView data top groups ->
  mergeTags data
  = Ret (represent (fold_left tMerge (List.concat groups)
                      (fold_left tAdd top []))).
Proof.
  intros ((js & Htags & Htop) & extras & Hextras & Hshape).
  unfold mergeTags. rewrite Htags. cbn [bind forEach].
  change (@nil TagCount) with (represent []).
  rewrite (forEach_fold addTag tAdd js top); auto.
  2:{ intros. apply addTag_view. assumption. }
  cbn [bind]. rewrite Hextras. cbn [bind]. unfold and.
  destruct Hshape as [[Hf ->] | (Hte & tgs & Htgs & Hgroups)].
  - rewrite Hf. cbn [bind]. rewrite Hf. reflexivity.
  - rewrite Hte, Htgs. cbn [bind].
    destruct Hgroups as [[Hf ->] | (gs & -> & Hall)].
    + rewrite Hf. reflexivity.
    + cbn [truthy forEach]. apply forEach_groups. exact Hall.
Qed.

(** ** The order of the result of fetchTags *)

Lemma insertDesc_perm (x : Z * TagCount) (l : list (Z * TagCount)) :
  Permutation (insertDesc x l) (x :: l).
Proof.
  induction l as [|y rest IH]; simpl; [reflexivity|].
  destruct (fst y <? fst x)%Z; [reflexivity|].
  rewrite IH. apply perm_swap.
Qed.

Lemma sortDesc_perm (l : list (Z * TagCount)) :
  Permutation (sortDesc l) l.
Proof.
  unfold sortDesc.
  assert (H : forall acc,
             Permutation (fold_left (fun acc x => insertDesc x acc) l acc)
               (acc ++ l)%list).
  { induction l as [|x rest IH]; intros acc; simpl.
    - rewrite app_nil_r. reflexivity.
    - rewrite IH, insertDesc_perm. simpl. apply Permutation_middle. }
  apply (H []).
Qed.

Lemma insertDesc_sorted (x : Z * TagCount) (l : list (Z * TagCount)) :
  descending l -> descending (insertDesc x l).
Proof.
  unfold descending. induction l as [|y rest IH]; simpl; intros Hs.
  - constructor; constructor.
  - inversion Hs as [|? ? Hrest Hall]; subst.
    destruct (Z.ltb_spec (fst y) (fst x)) as [Hlt|Hge].
    + constructor; [exact Hs|]. constructor; [lia|].
      eapply Forall_impl; [|exact Hall]. simpl. intros z Hz. lia.
    + constructor; [auto|].
      eapply Permutation_Forall;
        [apply Permutation_sym, insertDesc_perm|].
      constructor; [exact Hge | exact Hall].
Qed.

Lemma sortDesc_sorted (l : list (Z * TagCount)) : descending (sortDesc l).
Proof.
  unfold sortDesc.
  assert (H : forall acc, descending acc ->
             descending (fold_left (fun acc x => insertDesc x acc) l acc)).
  { induction l as [|x rest IH]; intros acc Hacc; simpl; [exact Hacc|].
    apply IH, insertDesc_sorted, Hacc. }
  apply H. constructor.
Qed.

Lemma sortKeys_represent (tm : TypedMap) :
  sortKeys (represent tm) = Ret (keyed tm).
Proof.
  induction tm as [|p rest IH]; [reflexivity|].
  cbn [represent map sortKeys]. unfold sortKey at 1.
  cbn [entry count toNumber bind]. fold (represent rest). rewrite IH.
  reflexivity.
Qed.

Lemma descending_entries (l : list (Z * TagCount)) :
  Forall (fun kp => fst kp = countZ (snd kp)) l ->
  descending l ->
  StronglySorted (fun a b => (countZ b <= countZ a)%Z) (map snd l).
Proof.
  intros Hkeys Hs. induction Hs as [|kp rest Hrest IH Hall]; simpl.
  - constructor.
  - inversion Hkeys as [|? ? Hk Hks]; subst.
    constructor; [auto|].
    apply Forall_map. rewrite Forall_forall in *.
    intros kq Hin. rewrite <- Hk, <- (Hks kq Hin). apply Hall, Hin.
Qed.

Lemma keyed_keys (tm : TypedMap) :
  Forall (fun kp => fst kp = countZ (snd kp)) (keyed tm).
Proof.
  unfold keyed. apply Forall_map, Forall_forall. intros p _. reflexivity.
Qed.

Lemma names_represent (tm : TypedMap) :
  NoDup (map fst tm) -> NoDup (map entry_name (represent tm)).
Proof.
  unfold represent. rewrite map_map. cbn [entry entry_name].
  induction tm as [|[k c] rest IH]; simpl; intros Hnd.
  - constructor.
  - inversion Hnd as [|? ? Hnotin Hrest]; subst.
    constructor; [|auto].
    rewrite in_map_iff. intros ([k' c'] & Heq & Hin).
    injection Heq as ->. apply Hnotin.
    apply in_map_iff. exists (k, c'). auto.
Qed.

(** ** Properties of the client *)

Section Verification.

Variable t : string -> string.
Variable settings : DiscourseSyncSettings.

(** *** Helper lemmas *)

(** The failure branch returns failures only. *)
Lemma errorResult_fails (key : string) (response : RequestUrlResponse) :
  ensures (fun r => success r = false) (errorResult t key response).
Proof.
  unfold errorResult. apply ensures_bind.
  apply ensures_tryCatch; [| intro; simpl; reflexivity].
  ensure.
Qed.



(** The guard is false on an [errors] that is falsy, an empty array, a
    number, a boolean, or an object without [length]. *)
Lemma errorsGuard_false (errors : JValue) :
  truthy errors = false
  \/ errors = JArr []
  \/ (exists n, errors = JNum n)
  \/ (exists b, errors = JBool b)
  \/ (exists props, errors = JObj props
                    /\ lookup "length" props = JUndefined) ->
  errorsGuard errors = Some false.
Proof.
  unfold errorsGuard.
  intros [H | [-> | [[n ->] | [[b ->] | (props & -> & H)]]]].
  - rewrite H. reflexivity.
  - reflexivity.
  - destruct (truthy (JNum n)); reflexivity.
  - destruct b; reflexivity.
  - cbn [truthy get]. rewrite H. reflexivity.
Qed.

(** The guard is true on a non-empty array and on a non-empty string. *)
Lemma errorsGuard_true (errors : JValue) :
  (exists x rest, errors = JArr (x :: rest))
  \/ (exists c rest, errors = JStr (String c rest)) ->
  errorsGuard errors = Some true.
Proof.
  unfold errorsGuard. intros [(x & rest & ->) | (c & rest & ->)].
  - cbn [truthy get String.eqb Ascii.eqb]. cbn.
    destruct (List.length rest); reflexivity.
  - cbn. destruct (String.length rest); reflexivity.
Qed.



(** [checkCanCreateTags] returns after its one request. *)
Lemma checkCanCreateTags_returns (w : World) (tr : Trace) :
  exists v,
    run w tr (checkCanCreateTags settings)
    = (Returned v, (tr ++ [Requested (getRequest settings "/site.json")])%list).
Proof.
  unfold checkCanCreateTags. rewrite run_try_request.
  destruct (network w tr (getRequest settings "/site.json")) as [resp|e];
    cbn [settle bind tryCatch run]; [|eauto].
  destruct (status resp =? 200)%Z; cbn [tryCatch run]; [|eauto].
  unfold getJson. destruct (json resp) as [data|e];
    cbn [settle bind tryCatch run]; [|eauto].
  unfold and. destruct (truthy data) eqn:Htd.
  - destruct (get_of_truthy data "can_create_tag" Htd) as [x Hx].
    rewrite Hx. cbn [bind]. destruct (truthy x); cbn [tryCatch run];
      eauto.
  - cbn [bind]. rewrite Htd. cbn [tryCatch run]. eauto.
Qed.

(** [deriveFullUrl] on a non-empty string. *)
Lemma deriveFullUrl_string (u : string) :
  u <> "" ->
  deriveFullUrl settings (JStr u)
  = if isAbsolute u then Ret (JStr u)
    else match baseUrl settings with
         | None =>
             Throw (TypeError
               "Cannot read properties of undefined (reading 'replace')")
         | Some b =>
             Ret (JStr (replaceTrailingSlash b
                          ++ (if startsWith u "/" then u else "/" ++ u)))
         end.
Proof.
  intros Hne.
  assert (Htu : truthy (JStr u) = true).
  { simpl. destruct u; [contradiction | reflexivity]. }
  unfold deriveFullUrl, isAbsolute, callStartsWith. rewrite Htu.
  cbn [bind]. destruct (startsWith u "http://"); cbn [bind orb].
  - reflexivity.
  - destruct (startsWith u "https://"); [reflexivity|].
    destruct (baseUrl settings) as [b|]; [|reflexivity].
    cbn [bind toString]. destruct (startsWith u "/"); reflexivity.
Qed.

(** *** The claims *)

(** C1: when the first PUT of [updatePost] comes back with a status other
    than 200, the call returns a failure whose error names that status, the
    only request made during the call is the PUT of the post body, and
    that request is not the PUT of the topic (title, category, tags). *)
Theorem updatePost_short_circuit :
  forall (w : World) (tr0 : Trace) (postId topicId : Z)
         (title content : string) (category : Z)
         (tags : option (list string)) (postResponse : RequestUrlResponse),
    network w tr0 (postPut settings postId content) = Done postResponse ->
    status postResponse <> 200%Z ->
    let result :=
      run w tr0 (updatePost t settings postId topicId title content
                   category tags) in
    result =
      (Returned
         (failure (JStr (t "UPDATE_FAILED" ++ " ("
                           ++ string_of_Z (status postResponse) ++ ")"))),
       (tr0 ++ [Requested (postPut settings postId content)])%list)
    /\ requests (snd result)
       = (requests tr0 ++ [postPut settings postId content])%list
    /\ postPut settings postId content
       <> topicPut settings topicId title category tags.
Proof.
  intros w tr0 pid tid title content category tags resp Hnet Hst result.
  assert (Hrun : result =
    (Returned (failure (JStr (t "UPDATE_FAILED" ++ " ("
                                ++ string_of_Z (status resp) ++ ")"))),
     (tr0 ++ [Requested (postPut settings pid content)])%list)).
  { unfold result, updatePost. simpl. rewrite Hnet. simpl.
    rewrite (status_not_200 _ Hst). reflexivity. }
  split; [exact Hrun|]. split.
  - rewrite Hrun. simpl. unfold requests.
    rewrite flat_map_app. reflexivity.
  - intros H. discriminate H.
Qed.

(** C2, as the code has it: [createPost] succeeds exactly when the status
    is 200 and the parsed body has a truthy [id]; the result then carries
    the body's [id] and [topic_id].  A 200 response whose body parses
    without a truthy [id] gives the failure [POST_ID_ERROR], and one whose
    body does not parse gives the publish-failed message with the message
    of the exception; in each case the call returns. *)
Theorem createPost_success_iff_truthy_id :
  forall (w : World) (tr0 : Trace) (title content : string) (category : Z)
         (tags : option (list string)) (resp : RequestUrlResponse),
    let r := createRequest settings title content category tags in
    network w tr0 r = Done resp ->
    let result :=
      run w tr0 (createPost t settings title content category tags) in
    (succeeds (fst result)
     <-> status resp = 200%Z /\ exists v, hasTruthy (json resp) "id" v)
    /\ (forall v, status resp = 200%Z -> hasTruthy (json resp) "id" v ->
                  exists data tid,
                    json resp = Done data
                    /\ get data "topic_id" = Ret tid
                    /\ result
                       = (Returned {| success := true;
                                      postId := Some v;
                                      topicId := Some tid;
                                      error := None |},
                          (tr0 ++ [Requested r])%list))
    /\ (forall data, status resp = 200%Z -> json resp = Done data ->
                     lacksTruthy (json resp) "id" ->
                     result
                     = (Returned (failure (JStr (t "POST_ID_ERROR"))),
                        (tr0 ++ [Requested r])%list))
    /\ (forall e, status resp = 200%Z -> json resp = Raised e ->
                  result
                  = (Returned
                       (failure (JStr (t "PUBLISH_FAILED" ++ ": "
                                         ++ messageOrUnknown t e))),
                     (tr0 ++ [Requested r])%list)).
Proof.
  intros w tr0 title content category tags resp r Hnet result.
  assert (Hhave : forall v, status resp = 200%Z ->
            hasTruthy (json resp) "id" v ->
            exists data tid,
              json resp = Done data /\ get data "topic_id" = Ret tid
              /\ result
                 = (Returned {| success := true; postId := Some v;
                                topicId := Some tid; error := None |},
                    (tr0 ++ [Requested r])%list)).
  { intros v Hst Hv. pose proof Hv as (data & Hjson & Hget & Htv).
    rewrite Hjson in Hv.
    destruct (hasTruthy_truthy_data _ _ _ Hv) as (d & Hd & Htd).
    injection Hd as <-.
    destruct (get_of_truthy data "topic_id" Htd) as [tid Htid].
    exists data, tid. repeat split; auto.
    unfold result, createPost. rewrite run_try_request. fold r.
    rewrite Hnet. simpl. rewrite Hst. simpl. unfold getJson.
    rewrite Hjson. simpl. rewrite (and_get_having _ _ _ Hv). simpl.
    rewrite Htv, Hget. simpl. rewrite Htid. reflexivity. }
  assert (Hlack : forall data, status resp = 200%Z -> json resp = Done data ->
            lacksTruthy (json resp) "id" ->
            result = (Returned (failure (JStr (t "POST_ID_ERROR"))),
                      (tr0 ++ [Requested r])%list)).
  { intros data Hst Hjson Hl. rewrite Hjson in Hl.
    unfold result, createPost. rewrite run_try_request. fold r.
    rewrite Hnet. simpl. rewrite Hst. simpl. unfold getJson.
    rewrite Hjson. simpl.
    destruct (and_get_lacking data "id" Hl) as (x & Hx & Hfalse).
    rewrite Hx. simpl. rewrite Hfalse. reflexivity. }
  assert (Hraise : forall e, status resp = 200%Z -> json resp = Raised e ->
            result
            = (Returned (failure (JStr (t "PUBLISH_FAILED" ++ ": "
                                          ++ messageOrUnknown t e))),
               (tr0 ++ [Requested r])%list)).
  { intros e Hst Hjson.
    unfold result, createPost. rewrite run_try_request. fold r.
    rewrite Hnet. simpl. rewrite Hst. simpl. unfold getJson.
    rewrite Hjson. reflexivity. }
  split; [| split; [exact Hhave | split; [exact Hlack | exact Hraise]]].
  split.
  - intros Hs.
    destruct (status resp =? 200)%Z eqn:Hst.
    + apply Z.eqb_eq in Hst. split; [exact Hst|].
      destruct (json resp) as [data|e] eqn:Hjson.
      * destruct (truthy data) eqn:Htd.
        -- destruct (get_of_truthy data "id" Htd) as [x Hx].
           destruct (truthy x) eqn:Htx.
           ++ exists x, data. auto.
           ++ exfalso. rewrite (Hlack data Hst eq_refl) in Hs.
              ** exact (not_succeeds_failure _ Hs).
              ** intros v (d & Hd & Hg & Hv). injection Hd as <-.
                 rewrite Hx in Hg. injection Hg as <-. congruence.
        -- exfalso. rewrite (Hlack data Hst eq_refl) in Hs.
           ++ exact (not_succeeds_failure _ Hs).
           ++ intros v Hv.
              destruct (hasTruthy_truthy_data _ _ _ Hv) as (d & Hd & Ht).
              injection Hd as <-. congruence.
      * exfalso. rewrite (Hraise e Hst eq_refl) in Hs.
        exact (not_succeeds_failure _ Hs).
    + exfalso. destruct Hs as (res & Hres & Hsucc).
      assert (Hens : ensures (fun x => success x = false)
                       (tryCatch (errorResult t "PUBLISH_FAILED" resp)
                          (fun error =>
                             Ret (failure (JStr (t "PUBLISH_FAILED" ++ ": "
                                    ++ messageOrUnknown t error)))))).
      { apply ensures_tryCatch; [apply errorResult_fails|].
        intros e. reflexivity. }
      unfold result, createPost in Hres. rewrite run_try_request in Hres.
      fold r in Hres. rewrite Hnet in Hres. simpl in Hres.
      rewrite Hst in Hres.
      pose proof (ensures_run _ _ Hens w (tr0 ++ [Requested r])%list res Hres)
        as Hfalse.
      simpl in Hfalse. congruence.
  - intros (Hst & v & Hv).
    destruct (Hhave v Hst Hv) as (data & tid & _ & _ & Hres).
    rewrite Hres. eexists. split; reflexivity.
Qed.

(** C3, as the code has it: on a 200 response whose [url] is a non-empty
    string, [uploadImage] returns a [fullUrl] that is that string when it
    starts with [http://] or [https://]; otherwise it is [baseUrl] with
    one trailing slash removed, when it has one, followed by the path, with
    a slash put before a path that does not start with one.  When
    [baseUrl] does not end with two slashes and the path does not start
    with two, this is the base without its trailing slash, one slash, and
    the path without its leading slash: no slash before the join and none
    after it.  On a 200 response whose [url] is absent or falsy the result
    has no [fullUrl]. *)
Theorem uploadImage_fullUrl :
  forall (w : World) (tr0 : Trace) (file : TFile) (imgfile : list byte)
         (resp : RequestUrlResponse) (data : JValue),
    let boundary :=
      "ObsidianBoundary" ++ random w (tr0 ++ [ReadFile file])%list in
    let r := uploadRequest settings file imgfile boundary in
    let returns (short full : JValue) :=
      run w tr0 (uploadImage settings file)
      = (Returned (Some {| shortUrl := short; fullUrl := full |}),
         (tr0 ++ [ReadFile file; Requested r])%list) in
    vault w tr0 file = Done imgfile ->
    network w (tr0 ++ [ReadFile file])%list r = Done resp ->
    status resp = 200%Z ->
    json resp = Done data ->
    (forall u : string,
        get data "url" = Ret (JStr u) ->
        u <> "" ->
        isAbsolute u = true \/ (exists b, baseUrl settings = Some b) ->
        exists (short : JValue) (full : string),
          returns short (JStr full)
          /\ get data "short_url" = Ret short
          /\ (isAbsolute u = true -> full = u)
          /\ (isAbsolute u = false ->
              forall b, baseUrl settings = Some b ->
                full = replaceTrailingSlash b
                         ++ (if startsWith u "/" then u else "/" ++ u)
                /\ (endsWith "//" b = false -> startsWith u "//" = false ->
                    full = specFullUrl b u
                    /\ endsWith "/" (dropTrailingSlashes b) = false
                    /\ startsWith (dropLeadingSlashes u) "/" = false)))
    /\ (forall u short : JValue,
           get data "url" = Ret u ->
           truthy u = false ->
           get data "short_url" = Ret short ->
           returns short JUndefined).
Proof.
  intros w tr0 file imgfile resp data boundary r returns
         Hvault Hnet Hst Hjson.
  assert (Hrun : forall u full short,
            get data "url" = Ret u ->
            deriveFullUrl settings u = Ret full ->
            get data "short_url" = Ret short ->
            returns short full).
  { intros u full short Hurl Hfull Hshort.
    unfold returns, uploadImage, readBinary, genBoundary,
      randomHexDigits, requestUrl.
    cbn [run tryCatch bind]. rewrite Hvault.
    cbn [run tryCatch bind settle]. fold boundary. fold r. rewrite Hnet.
    cbn [run tryCatch bind settle]. rewrite Hst. unfold getJson.
    rewrite Hjson. cbn [Z.eqb Pos.eqb run tryCatch bind settle].
    rewrite Hurl. cbn [run tryCatch bind settle]. rewrite Hfull.
    cbn [run tryCatch bind settle]. rewrite Hshort.
    cbn [run tryCatch bind settle]. rewrite <- app_assoc. reflexivity. }
  split.
  - intros u Hurl Hne Hbase.
    assert (Htd : truthy data = true).
    { destruct (hasTruthy_truthy_data (Done data) "url" (JStr u))
        as (d & Hd & Ht).
      - exists data. repeat split; [exact Hurl|].
        simpl. destruct u; [contradiction | reflexivity].
      - injection Hd as <-. exact Ht. }
    destruct (get_of_truthy data "short_url" Htd) as [short Hshort].
    pose proof (deriveFullUrl_string u Hne) as Hfull.
    destruct (isAbsolute u) eqn:Habs.
    + exists short, u. split; [|split; [exact Hshort | split; [auto|]]].
      * exact (Hrun _ _ _ Hurl Hfull Hshort).
      * intros H. discriminate H.
    + destruct Hbase as [H | [b Hb]]; [discriminate H|].
      rewrite Hb in Hfull.
      exists short,
        (replaceTrailingSlash b ++ (if startsWith u "/" then u else "/" ++ u)).
      split; [|split; [exact Hshort | split]].
      * exact (Hrun _ _ _ Hurl Hfull Hshort).
      * intros H. discriminate H.
      * intros _ b' Hb'. rewrite Hb in Hb'. injection Hb' as <-.
        split; [reflexivity|].
        intros He Hs. split; [|split].
        -- unfold specFullUrl.
           rewrite (replaceTrailingSlash_all _ He), (leading_slash_once _ Hs).
           reflexivity.
        -- apply dropTrailingSlashes_no_slash.
        -- apply dropLeadingSlashes_no_slash.
  - intros u short Hurl Hfalse Hshort.
    apply (Hrun u JUndefined short Hurl); [|exact Hshort].
    unfold deriveFullUrl. rewrite Hfalse. reflexivity.
Qed.

(** C4: on a 200 response that reads as the top-level tags [top] and the
    tag groups [groups], the map [allTags] built by [fetchTags] holds each
    name once, and a name has in it the maximum of the count of its last
    top-level occurrence and of its counts in the groups; a name with one
    top-level count [a] and one group count [b] has [Z.max a b].  The
    result lists the names of the map, each once, in descending order of
    these counts, every tag with the value the probe of site.json
    returned. *)
Theorem fetchTags_merges_by_maximum :
  forall (w : World) (tr0 : Trace) (resp : RequestUrlResponse)
         (data : JValue) (top : list TagJson)
         (groups : list (list TagJson)),
    let r := getRequest settings "/tags.json" in
    let site := getRequest settings "/site.json" in
    network w tr0 r = Done resp ->
    status resp = 200%Z ->
    json resp = Done data ->
    tagsView data top groups ->
    exists (allTags sorted : list TagCount) (can : JValue),
      let result :=
        map (fun e => {| tag_name := entry_name e; canCreate := can |})
          sorted in
      mergeTags data = Ret allTags
      /\ run w tr0 (fetchTags settings)
         = (Returned result, (tr0 ++ [Requested r; Requested site])%list)
      /\ NoDup (map tag_name result)
      /\ NoDup (map entry_name allTags)
      /\ Permutation sorted allTags
      /\ StronglySorted (fun a b => (countZ b <= countZ a)%Z) sorted
      /\ (forall n,
             mapGet allTags (JStr n)
             = option_map
                 (fun c => {| entry_name := JStr n; count := JNum c |})
                 (expectedCount top groups n))
      /\ (forall n a b,
             countsOf top n = [a] ->
             countsOf (List.concat groups) n = [b] ->
             mapGet allTags (JStr n)
             = Some {| entry_name := JStr n; count := JNum (Z.max a b) |}).
Proof.
  intros w tr0 resp data top groups r site Hnet Hst Hjson Hview.
  set (tm := fold_left tMerge (List.concat groups) (fold_left tAdd top [])).
  pose proof (mergeTags_view _ _ _ Hview) as Hmerge. fold tm in Hmerge.
  assert (Hnd : NoDup (map fst tm)).
  { unfold tm. apply NoDup_keys_fold; [apply NoDup_keys_tMerge|].
    apply NoDup_keys_fold; [|constructor].
    intros. apply NoDup_keys_tSet. assumption. }
  assert (Hget : forall n,
             mapGet (represent tm) (JStr n)
             = option_map
                 (fun c => {| entry_name := JStr n; count := JNum c |})
                 (expectedCount top groups n)).
  { intros n. rewrite mapGet_represent. unfold tm.
    rewrite tGet_merged. reflexivity. }
  assert (Hperm : Permutation (map snd (sortDesc (keyed tm))) (represent tm)).
  { rewrite sortDesc_perm. unfold keyed, represent. rewrite map_map.
    reflexivity. }
  destruct (checkCanCreateTags_returns w (tr0 ++ [Requested r])%list)
    as [can Hcan]. fold site in Hcan.
  exists (represent tm), (map snd (sortDesc (keyed tm))), can.
  cbn zeta. repeat split.
  - exact Hmerge.
  - destruct Hview as ((js & Htags & _) & _).
    assert (Htd : truthy data = true).
    { destruct data; simpl in Htags; try discriminate Htags; reflexivity. }
    unfold fetchTags. rewrite run_try_request. fold r. rewrite Hnet.
    cbn [settle bind]. rewrite Hst. unfold getJson. rewrite Hjson.
    cbn [Z.eqb Pos.eqb settle bind]. unfold and. rewrite Htd, Htags.
    cbn [bind truthy]. rewrite run_try_bind, Hcan, Hmerge.
    cbn [bind]. unfold sortByCount. rewrite sortKeys_represent.
    cbn [bind tryCatch run app]. rewrite <- app_assoc. reflexivity.
  - rewrite map_map. cbn [tag_name].
    apply (Permutation_NoDup (l := map entry_name (represent tm)));
      [apply Permutation_sym, Permutation_map, Hperm|].
    apply names_represent, Hnd.
  - apply names_represent, Hnd.
  - exact Hperm.
  - apply descending_entries.
    + eapply Permutation_Forall;
        [apply Permutation_sym, sortDesc_perm | apply keyed_keys].
    + apply sortDesc_sorted.
  - exact Hget.
  - intros n a b Ha Hb. rewrite Hget. unfold expectedCount.
    rewrite Ha, Hb. reflexivity.
Qed.

(** C5: on a 200 response that reads as the categories [cats],
    [fetchCategories] returns, for each category in the order of the
    response, the category itself followed at once by its subcategories in
    their order; a subcategory is listed under the name made of the
    parent name, [ > ] and its own name.  A response of one category with
    two subcategories gives the three entries parent, first, second. *)
Theorem fetchCategories_flattens :
  forall (w : World) (tr0 : Trace) (resp : RequestUrlResponse)
         (data : JValue) (cats : list CategoryJson),
    let r := getRequest settings
               "/categories.json?include_subcategories=true" in
    network w tr0 r = Done resp ->
    status resp = 200%Z ->
    json resp = Done data ->
    categoriesView data cats ->
    run w tr0 (fetchCategories settings)
    = (Returned
         (flat_map
            (fun c =>
               {| id := JNum (cat_id c); name := JStr (cat_name c) |}
               :: map (fun s =>
                         {| id := JNum (sub_id s);
                            name := JStr (cat_name c ++ " > "
                                            ++ sub_name s) |})
                    (subcategories c))
            cats),
       (tr0 ++ [Requested r])%list)
    /\ (forall c s1 s2,
           cats = [c] -> subcategories c = [s1; s2] ->
           fst (run w tr0 (fetchCategories settings))
           = Returned
               [{| id := JNum (cat_id c); name := JStr (cat_name c) |};
                {| id := JNum (sub_id s1);
                   name := JStr (cat_name c ++ " > " ++ sub_name s1) |};
                {| id := JNum (sub_id s2);
                   name := JStr (cat_name c ++ " > " ++ sub_name s2) |}]).
Proof.
  intros w tr0 resp data cats r Hnet Hst Hjson Hview.
  assert (Hrun : run w tr0 (fetchCategories settings)
                 = (Returned (flat_map flattenCategory cats),
                    (tr0 ++ [Requested r])%list)).
  { destruct Hview as (cl & js & Hcl & Hcats & Hall).
    assert (Htd : truthy data = true).
    { destruct data; simpl in Hcl; try discriminate Hcl; try reflexivity;
        injection Hcl as <-; discriminate Hcats. }
    assert (Htcl : truthy cl = true).
    { destruct cl; simpl in Hcats; try discriminate Hcats; reflexivity. }
    unfold fetchCategories. rewrite run_try_request. fold r. rewrite Hnet.
    cbn [settle bind]. rewrite Hst. unfold getJson. rewrite Hjson.
    cbn [Z.eqb Pos.eqb settle bind]. unfold and. rewrite Htd, Hcl.
    cbn [bind]. rewrite Htcl, Hcats. cbn [bind truthy forEach].
    rewrite (forEach_categories _ _ Hall). reflexivity. }
  split; [exact Hrun|].
  intros c s1 s2 -> Hsubs. rewrite Hrun. simpl.
  unfold flattenCategory. rewrite Hsubs. reflexivity.
Qed.


(** C7: when [baseUrl] or the API key is empty or unset, [testApiKey]
    returns the missing-settings failure and the trace is left as it was:
    no request is made. *)
Theorem testApiKey_missing_settings :
  forall (w : World) (tr0 : Trace),
    (baseUrl settings = None \/ baseUrl settings = Some "")
    \/ (userApiKey settings = None \/ userApiKey settings = Some "") ->
    run w tr0 (testApiKey t settings)
    = (Returned {| test_success := false;
                   message := t "MISSING_SETTINGS" |}, tr0).
Proof.
  intros w tr0 H. unfold testApiKey.
  assert (E : unset (baseUrl settings) || unset (userApiKey settings) = true).
  { apply orb_true_iff.
    destruct H as [H|H]; [left|right]; apply unset_spec; exact H. }
  rewrite E. reflexivity.
Qed.

(** C8: [checkCanCreateTags] always returns, and makes no call to the host
    but its one request, so it raises no notification.  It returns the
    value of [can_create_tag] when the response has status 200 and a body
    in which that field is truthy; in every other case (a thrown exception,
    another status, a body without a truthy field) it returns [false]. *)
Theorem checkCanCreateTags_silent :
  forall (w : World) (tr0 : Trace),
    let site := getRequest settings "/site.json" in
    exists v : JValue,
      run w tr0 (checkCanCreateTags settings)
      = (Returned v, (tr0 ++ [Requested site])%list)
      /\ notifications (snd (run w tr0 (checkCanCreateTags settings)))
         = notifications tr0
      /\ ((exists resp, network w tr0 site = Done resp
                        /\ status resp = 200%Z
                        /\ hasTruthy (json resp) "can_create_tag" v)
          \/ (v = JBool false
              /\ forall resp, network w tr0 site = Done resp ->
                              status resp = 200%Z ->
                              lacksTruthy (json resp) "can_create_tag")).
Proof.
  intros w tr0 site.
  assert (Hquiet : forall v : JValue,
            notifications
              (snd (Returned v, (tr0 ++ [Requested site])%list))
            = notifications tr0).
  { intros v. simpl. unfold notifications. rewrite flat_map_app. simpl.
    apply app_nil_r. }
  unfold checkCanCreateTags. rewrite run_try_request. fold site.
  destruct (network w tr0 site) as [resp|e] eqn:Hnet;
    cbn [settle bind tryCatch run].
  2:{ exists (JBool false). split; [reflexivity|]. split; [apply Hquiet|].
      right. split; [reflexivity|]. intros resp H. discriminate H. }
  destruct (status resp =? 200)%Z eqn:Hst; cbn [tryCatch run].
  2:{ exists (JBool false). split; [reflexivity|]. split; [apply Hquiet|].
      right. split; [reflexivity|]. intros resp' H Hs. injection H as <-.
      apply Z.eqb_neq in Hst. contradiction. }
  apply Z.eqb_eq in Hst. unfold getJson.
  destruct (json resp) as [data|e] eqn:Hjson; cbn [settle bind tryCatch run].
  2:{ exists (JBool false). split; [reflexivity|]. split; [apply Hquiet|].
      right. split; [reflexivity|]. intros resp' H _ v (d & Hd & _).
      injection H as <-. rewrite Hjson in Hd. discriminate Hd. }
  unfold and.
  destruct (truthy data) eqn:Hdata.
  2:{ cbn [bind]. rewrite Hdata. cbn [tryCatch run].
      exists (JBool false). split; [reflexivity|]. split; [apply Hquiet|].
      right. split; [reflexivity|]. intros resp' H _ v Hv.
      injection H as <-.
      destruct (hasTruthy_truthy_data _ _ _ Hv) as (d & Hd & Ht).
      rewrite Hjson in Hd. injection Hd as <-. congruence. }
  destruct (get_of_truthy data "can_create_tag" Hdata) as [x Hx].
  rewrite Hx. cbn [bind].
  destruct (truthy x) eqn:Htx; cbn [tryCatch run].
  - exists x. split; [reflexivity|]. split; [apply Hquiet|]. left.
    exists resp. repeat split; auto. exists data. rewrite Hjson. auto.
  - exists (JBool false). split; [reflexivity|]. split; [apply Hquiet|].
    right. split; [reflexivity|]. intros resp' H _ v (d & Hd & Hg & Hv).
    injection H as <-. rewrite Hjson in Hd. injection Hd as <-.
    rewrite Hx in Hg. injection Hg as <-. congruence.
Qed.

(** C9: on a 200 response whose body has no truthy [tags], [fetchTags]
    returns the empty list and makes no request after the one for the
    tags, so the probe of site.json is not made; when the body parses, the
    call does nothing at all after its request. *)
Theorem fetchTags_without_tags_skips_probe :
  forall (w : World) (tr0 : Trace) (resp : RequestUrlResponse),
    let r := getRequest settings "/tags.json" in
    network w tr0 r = Done resp ->
    status resp = 200%Z ->
    lacksTruthy (json resp) "tags" ->
    exists evs : Trace,
      run w tr0 (fetchTags settings)
      = (Returned [], (tr0 ++ Requested r :: evs)%list)
      /\ requests evs = []
      /\ (forall data, json resp = Done data -> evs = []).
Proof.
  intros w tr0 resp r Hnet Hst Hlack.
  unfold fetchTags. rewrite run_try_request. fold r. rewrite Hnet.
  simpl. rewrite Hst. simpl. unfold getJson.
  destruct (json resp) as [data|e] eqn:Hjson; simpl.
  - destruct (and_get_lacking data "tags" Hlack) as (x & Hx & Hfalse).
    rewrite Hx. simpl. rewrite Hfalse. simpl.
    exists []. repeat split; reflexivity.
  - exists [Notified ("Exception while fetching tags: " ++ errorToString e)].
    repeat split.
    + rewrite <- app_assoc. reflexivity.
    + intros data H. discriminate H.
Qed.

(** C10: on a response with a status other than 200, [fetchTopicInfo]
    returns a result with an empty tag list and no [categoryId] and
    notifies nobody; when the request or the body getter throws, it
    notifies once and returns the same result; and when nothing throws, the
    call makes its request and nothing else, so no notification is
    raised. *)
Theorem fetchTopicInfo_failure_modes :
  forall (w : World) (tr0 : Trace) (topicId : Z),
    let r := getRequest settings ("/t/" ++ string_of_Z topicId ++ ".json") in
    let sentinel := {| tags := JArr []; categoryId := None |} in
    let result := run w tr0 (fetchTopicInfo settings topicId) in
    (forall resp, network w tr0 r = Done resp -> status resp <> 200%Z ->
                  result = (Returned sentinel, (tr0 ++ [Requested r])%list))
    /\ (forall e, throwsAt w tr0 r e ->
                  result
                  = (Returned sentinel,
                     (tr0 ++ [Requested r;
                              Notified ("Exception while fetching topic info: "
                                          ++ errorToString e)])%list))
    /\ ((forall e, ~ throwsAt w tr0 r e) ->
        exists info, result = (Returned info, (tr0 ++ [Requested r])%list)).
Proof.
  intros w tr0 topicId r sentinel result.
  unfold result, fetchTopicInfo. rewrite run_try_request. fold r.
  repeat split.
  - intros resp Hnet Hst. rewrite Hnet. simpl.
    rewrite (status_not_200 _ Hst). reflexivity.
  - intros e [Hnet | (resp & Hnet & Hst & Hjson)]; rewrite Hnet; simpl.
    + rewrite <- app_assoc. reflexivity.
    + rewrite Hst. simpl. unfold getJson. rewrite Hjson. simpl.
      rewrite <- app_assoc. reflexivity.
  - intros Hno.
    destruct (network w tr0 r) as [resp|e] eqn:Hnet; simpl.
    2:{ exfalso. apply (Hno e). left. exact Hnet. }
    destruct (status resp =? 200)%Z eqn:Hst; simpl; [|eauto].
    apply Z.eqb_eq in Hst. unfold getJson.
    destruct (json resp) as [data|e] eqn:Hjson; simpl.
    2:{ exfalso. apply (Hno e). right. exists resp. auto. }
    destruct data; simpl; eauto;
      match goal with
      | |- context [if ?b then _ else _] => destruct b; simpl; eauto
      end.
Qed.

End Verification.

(** ** Instances *)

Lemma categoriesBody_view : categoriesView categoriesBody [parentCategory].
Proof.
  eexists. eexists. split; [reflexivity|]. split; [reflexivity|].
  constructor; [|constructor].
  split; [reflexivity|]. split; [reflexivity|].
  eexists. split; [reflexivity|]. right.
  eexists. split; [reflexivity|].
  repeat constructor.
Qed.

Lemma tagsBody_view :
  tagsView tagsBody [{| tj_name := "a"; tj_count := 5 |}]
    [[{| tj_name := "a"; tj_count := 10 |}]].
Proof.
  assert (Htag : forall n c, tagView (tagObject n c)
                               {| tj_name := n; tj_count := c |}).
  { intros n c. split; [reflexivity|]. eexists. split; [reflexivity|].
    left. reflexivity. }
  split.
  - eexists. split; [reflexivity|]. constructor; [apply Htag | constructor].
  - eexists. split; [reflexivity|]. right. split; [reflexivity|].
    eexists. split; [reflexivity|]. right.
    eexists. split; [reflexivity|].
    constructor; [|constructor].
    eexists. split; [reflexivity|]. right.
    eexists. split; [reflexivity|].
    constructor; [apply Htag | constructor].
Qed.

(** C1 on a post PUT answered with status 500. *)
Lemma updatePost_short_circuit_witness :
  network (constantWorld (failed 500 JNull)) [] (postPut forum 12 "C")
  = failed 500 JNull
  /\ run (constantWorld (failed 500 JNull)) []
       (updatePost keyText forum 12 13 "T" "C" 1 None)
     = (Returned (failure (JStr "UPDATE_FAILED (500)")),
        [Requested (postPut forum 12 "C")]).
Proof.
  split; [reflexivity|].
  apply (updatePost_short_circuit keyText forum
           (constantWorld (failed 500 JNull)) [] 12 13 "T" "C" 1 None
           {| status := 500; json := Done JNull |}).
  - reflexivity.
  - discriminate.
Defined.

(** C2 on a 200 response with the ids 5 and 7. *)
Lemma createPost_success_witness :
  succeeds
    (fst (run (constantWorld (ok (JObj [("id", JNum 5); ("topic_id", JNum 7)])))
            [] (createPost keyText forum "T" "C" 1 None))).
Proof.
  apply (proj1 (createPost_success_iff_truthy_id keyText forum
                  (constantWorld
                     (ok (JObj [("id", JNum 5); ("topic_id", JNum 7)])))
                  [] "T" "C" 1 None
                  {| status := 200;
                     json := Done (JObj [("id", JNum 5);
                                         ("topic_id", JNum 7)]) |}
                  eq_refl)).
  split; [reflexivity|].
  exists (JNum 5), (JObj [("id", JNum 5); ("topic_id", JNum 7)]).
  repeat split.
Defined.

(** C2 fails as stated: a 200 response with the numeric id 0 is a failure,
    and a 200 response whose id is a string is a success. *)
Lemma createPost_numeric_id_counterexample :
  (let body := JObj [("id", JNum 0); ("topic_id", JNum 7)] in
   let result :=
     run (constantWorld (ok body)) []
       (createPost keyText forum "T" "C" 1 None) in
   hasNumericId (Done body)
   /\ result = (Returned (failure (JStr "POST_ID_ERROR")),
                [Requested (createRequest forum "T" "C" 1 None)])
   /\ ~ succeeds (fst result))
  /\ (let body := JObj [("id", JStr "abc"); ("topic_id", JNum 7)] in
      let result :=
        run (constantWorld (ok body)) []
          (createPost keyText forum "T" "C" 1 None) in
      ~ hasNumericId (Done body)
      /\ result = (Returned {| success := true;
                               postId := Some (JStr "abc");
                               topicId := Some (JNum 7);
                               error := None |},
                   [Requested (createRequest forum "T" "C" 1 None)])
      /\ succeeds (fst result)).
Proof.
  split; cbn zeta.
  - split; [exists (JObj [("id", JNum 0); ("topic_id", JNum 7)]), 0%Z;
            split; reflexivity|].
    split; [reflexivity|].
    intros (r & Hr & Hs). injection Hr as <-. discriminate Hs.
  - split.
    + intros (data & n & Hd & Hg). injection Hd as <-. discriminate Hg.
    + split; [reflexivity|]. eexists. split; reflexivity.
Qed.

(** C3 on a relative path and a base URL with a trailing slash. *)
Lemma uploadImage_fullUrl_witness :
  exists (short : JValue) (full : string),
    run (constantWorld
           (ok (JObj [("url", JStr "/uploads/a.png");
                      ("short_url", JStr "upload://a.png")])))
      [] (uploadImage forumWithSlash picture)
    = (Returned (Some {| shortUrl := short; fullUrl := JStr full |}),
       [ReadFile picture;
        Requested (uploadRequest forumWithSlash picture []
                     "ObsidianBoundary")])
    /\ full = "https://forum.example.com/uploads/a.png".
Proof.
  destruct (proj1 (uploadImage_fullUrl forumWithSlash
                     (constantWorld
                        (ok (JObj [("url", JStr "/uploads/a.png");
                                   ("short_url", JStr "upload://a.png")])))
                     [] picture []
                     {| status := 200;
                        json := Done (JObj [("url", JStr "/uploads/a.png");
                                            ("short_url",
                                             JStr "upload://a.png")]) |}
                     (JObj [("url", JStr "/uploads/a.png");
                            ("short_url", JStr "upload://a.png")])
                     eq_refl eq_refl eq_refl eq_refl)
              "/uploads/a.png" eq_refl ltac:(discriminate)
              (or_intror (ex_intro _ "https://forum.example.com/" eq_refl)))
    as (short & full & Hrun & _ & _ & Hrel).
  exists short, full. split; [exact Hrun|].
  destruct (Hrel eq_refl "https://forum.example.com/" eq_refl) as [Hfull _].
  exact Hfull.
Defined.

(** C3 fails as stated: a path that starts with two slashes is appended as
    it is, so two slashes stand at the join, where the specification has one;
    and a response without [url] has no [fullUrl]. *)
Lemma uploadImage_fullUrl_counterexample :
  (run (constantWorld
          (ok (JObj [("url", JStr "//cdn.example.com/a.png");
                     ("short_url", JStr "upload://a.png")])))
     [] (uploadImage forum picture)
   = (Returned
        (Some {| shortUrl := JStr "upload://a.png";
                 fullUrl :=
                   JStr "https://forum.example.com//cdn.example.com/a.png" |}),
      [ReadFile picture;
       Requested (uploadRequest forum picture [] "ObsidianBoundary")])
   /\ isAbsolute "//cdn.example.com/a.png" = false
   /\ specFullUrl "https://forum.example.com" "//cdn.example.com/a.png"
      = "https://forum.example.com/cdn.example.com/a.png"
   /\ "https://forum.example.com//cdn.example.com/a.png"
      <> specFullUrl "https://forum.example.com" "//cdn.example.com/a.png")
  /\ run (constantWorld (ok (JObj [("short_url", JStr "upload://a.png")])))
       [] (uploadImage forum picture)
     = (Returned
          (Some {| shortUrl := JStr "upload://a.png";
                   fullUrl := JUndefined |}),
        [ReadFile picture;
         Requested (uploadRequest forum picture [] "ObsidianBoundary")]).
Proof.
  repeat split. discriminate.
Qed.

(** C4 on the tag [a], used 5 times at the top level and 10 times in a
    group. *)
Lemma fetchTags_merges_by_maximum_witness :
  exists allTags : list TagCount,
    mergeTags tagsBody = Ret allTags
    /\ mapGet allTags (JStr "a")
       = Some {| entry_name := JStr "a"; count := JNum 10 |}
    /\ run tagsForum [] (fetchTags forum)
       = (Returned [{| tag_name := JStr "a"; canCreate := JBool true |}],
          [Requested (getRequest forum "/tags.json");
           Requested (getRequest forum "/site.json")]).
Proof.
  destruct (fetchTags_merges_by_maximum forum tagsForum []
              {| status := 200; json := Done tagsBody |} tagsBody
              [{| tj_name := "a"; tj_count := 5 |}]
              [[{| tj_name := "a"; tj_count := 10 |}]]
              eq_refl eq_refl eq_refl tagsBody_view)
    as (allTags & sorted & can & Hmerge & _ & _ & _ & _ & _ & _ & Hmax).
  exists allTags. split; [exact Hmerge|]. split.
  - apply (Hmax "a" 5%Z 10%Z); reflexivity.
  - reflexivity.
Defined.

(** C5 on one category with two subcategories. *)
Lemma fetchCategories_flattens_witness :
  fst (run (constantWorld (ok categoriesBody)) [] (fetchCategories forum))
  = Returned [{| id := JNum 1; name := JStr "Parent" |};
              {| id := JNum 2; name := JStr "Parent > One" |};
              {| id := JNum 3; name := JStr "Parent > Two" |}].
Proof.
  apply (proj2 (fetchCategories_flattens forum
                  (constantWorld (ok categoriesBody)) []
                  {| status := 200; json := Done categoriesBody |}
                  categoriesBody [parentCategory]
                  eq_refl eq_refl eq_refl categoriesBody_view)
           parentCategory
           {| sub_id := 2; sub_name := "One" |}
           {| sub_id := 3; sub_name := "Two" |}
           eq_refl eq_refl).
Defined.



(** C7 on settings with an empty base URL. *)
Lemma testApiKey_missing_settings_witness :
  run (constantWorld (ok siteBody)) [] (testApiKey keyText noBaseUrl)
  = (Returned {| test_success := false; message := "MISSING_SETTINGS" |}, []).
Proof.
  apply (testApiKey_missing_settings keyText noBaseUrl
           (constantWorld (ok siteBody)) []).
  left. right. reflexivity.
Defined.

(** C9 on a body whose [tags] is [null]. *)
Lemma fetchTags_without_tags_witness :
  exists evs : Trace,
    run (constantWorld (ok (JObj [("tags", JNull)]))) [] (fetchTags forum)
    = (Returned [], Requested (getRequest forum "/tags.json") :: evs)
    /\ requests evs = []
    /\ (forall data,
           Done (JObj [("tags", JNull)]) = Done data -> evs = []).
Proof.
  apply (fetchTags_without_tags_skips_probe forum
           (constantWorld (ok (JObj [("tags", JNull)]))) []
           {| status := 200; json := Done (JObj [("tags", JNull)]) |}).
  - reflexivity.
  - reflexivity.
  - intros v (data & Hd & Hg & Hv). injection Hd as <-.
    injection Hg as <-. discriminate Hv.
Defined.

(** C10 on a response with status 404. *)
Lemma fetchTopicInfo_not_found_witness :
  run (constantWorld (failed 404 JNull)) [] (fetchTopicInfo forum 12)
  = (Returned {| tags := JArr []; categoryId := None |},
     [Requested (getRequest forum "/t/12.json")]).
Proof.
  apply (proj1 (fetchTopicInfo_failure_modes forum
                  (constantWorld (failed 404 JNull)) [] 12)
           {| status := 404; json := Done JNull |}).
  - reflexivity.
  - discriminate.
Defined.

(** ** Further properties of the client *)

Lemma ensures_weaken {A : Type} (p : Prog A) (P P' : A -> Prop) :
  (forall a, P a -> P' a) -> ensures P p -> ensures P' p.
Proof.
  intros HP. induction p; simpl; auto.
Qed.

(** *** Programs without host calls *)

Create HintDb silent.

Lemma silent_bind {A B : Type} (p : Prog A) (f : A -> Prog B) :
  silent p -> (forall a, silent (f a)) -> silent (bind p f).
Proof.
  destruct p; simpl; intros Hp Hf; try contradiction; auto.
Qed.

Lemma silent_tryCatch {A : Type} (p : Prog A) (h : JsError -> Prog A) :
  silent p -> (forall e, silent (h e)) -> silent (tryCatch p h).
Proof.
  destruct p; simpl; intros Hp Hh; try contradiction; auto.
Qed.

Lemma silent_if {A : Type} (b : bool) (p q : Prog A) :
  silent p -> silent q -> silent (if b then p else q).
Proof.
  destruct b; auto.
Qed.

Lemma silent_settle {A : Type} (o : Outcome A) : silent (settle o).
Proof.
  destruct o; exact I.
Qed.

Lemma silent_getJson (response : RequestUrlResponse) :
  silent (getJson response).
Proof.
  apply silent_settle.
Qed.

Lemma silent_get (v : JValue) (p : string) : silent (get v p).
Proof.
  destruct v; simpl; try exact I; destruct (p =? "length"); exact I.
Qed.

Lemma silent_getOptional (v : JValue) (p : string) :
  silent (getOptional v p).
Proof.
  destruct v; try exact I; apply silent_get.
Qed.

Lemma silent_and (a : JValue) (b : Prog JValue) :
  silent b -> silent (and a b).
Proof.
  unfold and. destruct (truthy a); auto. intros _. exact I.
Qed.

Lemma silent_toNumber (v : JValue) : silent (toNumber v).
Proof.
  destruct v as [| |[]| | | |]; exact I.
Qed.

Lemma silent_greaterThanZero (v : JValue) : silent (greaterThanZero v).
Proof.
  unfold greaterThanZero. apply silent_bind; [apply silent_toNumber|].
  intros [z|]; exact I.
Qed.

Lemma silent_mathMax (a b : JValue) : silent (mathMax a b).
Proof.
  unfold mathMax. apply silent_bind; [apply silent_toNumber|]. intros x.
  apply silent_bind; [apply silent_toNumber|]. intros y.
  destruct x, y; exact I.
Qed.

Lemma silent_callJoin (v : JValue) (sep : string) : silent (callJoin v sep).
Proof.
  destruct v; exact I.
Qed.

Lemma silent_callStartsWith (v : JValue) (pre : string) :
  silent (callStartsWith v pre).
Proof.
  destruct v; exact I.
Qed.

Lemma silent_forEachItem {S : Type} (items : list JValue)
    (callback : JValue -> S -> Prog S) :
  (forall x s, silent (callback x s)) ->
  forall s, silent (forEachItem items callback s).
Proof.
  intros Hc. induction items as [|x rest IH]; intros s; simpl; [exact I|].
  apply silent_bind; auto.
Qed.

Lemma silent_forEach {S : Type} (v : JValue)
    (callback : JValue -> S -> Prog S) (s : S) :
  (forall x s', silent (callback x s')) -> silent (forEach v callback s).
Proof.
  intros Hc. destruct v; try exact I. apply silent_forEachItem, Hc.
Qed.

Lemma silent_ret {A : Type} (a : A) : silent (Ret a).
Proof.
  exact I.
Qed.

#[local] Hint Resolve silent_ret silent_settle silent_getJson silent_get
  silent_getOptional silent_toNumber silent_greaterThanZero silent_mathMax
  silent_callJoin silent_callStartsWith : silent.

(** Proves that a program built from the operations above is silent. *)
Ltac quiet :=
  repeat first
    [ progress intros
    | exact I
    | apply silent_bind
    | apply silent_tryCatch
    | apply silent_and
    | apply silent_forEach
    | match goal with
      | |- silent (if ?b then _ else _) => destruct b
      | |- silent (match ?o with _ => _ end) => destruct o
      end
    | solve [auto with silent] ].

Lemma silent_errorResult (t : string -> string) (key : string)
    (response : RequestUrlResponse) :
  silent (errorResult t key response).
Proof.
  unfold errorResult. quiet.
Qed.

Lemma silent_deriveFullUrl (settings : DiscourseSyncSettings) (u : JValue) :
  silent (deriveFullUrl settings u).
Proof.
  unfold deriveFullUrl. quiet.
Qed.

Lemma silent_pushCategory (category : JValue) (categories : list Category) :
  silent (pushCategory category categories).
Proof.
  unfold pushCategory, pushSubcategory. quiet.
Qed.

Lemma silent_mergeTags (data : JValue) : silent (mergeTags data).
Proof.
  unfold mergeTags, mergeGroup, mergeTag, addTag. quiet.
Qed.

Lemma silent_sortByCount (allTags : TagMap) : silent (sortByCount allTags).
Proof.
  unfold sortByCount. apply silent_bind; [|intros; exact I].
  induction allTags as [|e rest IH]; simpl; [exact I|].
  unfold sortKey. quiet.
Qed.

#[local] Hint Resolve silent_errorResult silent_deriveFullUrl
  silent_pushCategory silent_mergeTags silent_sortByCount : silent.

(** *** Programs that end in a value or an exception *)

Lemma definite_silent {A : Type} (p : Prog A) : definite p -> silent p.
Proof.
  destruct p; simpl; auto.
Qed.

Lemma definite_bind {A B : Type} (p : Prog A) (f : A -> Prog B) :
  definite p -> (forall a, definite (f a)) -> definite (bind p f).
Proof.
  destruct p; simpl; intros Hp Hf; try contradiction; auto.
Qed.

Lemma definite_tryCatch {A : Type} (p : Prog A) (h : JsError -> Prog A) :
  definite p -> (forall e, definite (h e)) -> definite (tryCatch p h).
Proof.
  destruct p; simpl; intros Hp Hh; try contradiction; auto.
Qed.

Lemma definite_settle {A : Type} (o : Outcome A) : definite (settle o).
Proof.
  destruct o; exact I.
Qed.

Lemma definite_get (v : JValue) (p : string) : definite (get v p).
Proof.
  destruct v; simpl; try exact I; destruct (p =? "length"); exact I.
Qed.

Lemma definite_getOptional (v : JValue) (p : string) :
  definite (getOptional v p).
Proof.
  destruct v; try exact I; apply definite_get.
Qed.

Lemma definite_and (a : JValue) (b : Prog JValue) :
  definite b -> definite (and a b).
Proof.
  unfold and. destruct (truthy a); auto. intros _. exact I.
Qed.

Lemma definite_callStartsWith (v : JValue) (pre : string) :
  definite (callStartsWith v pre).
Proof.
  destruct v; exact I.
Qed.

Lemma definite_forEachItem {S : Type} (items : list JValue)
    (callback : JValue -> S -> Prog S) :
  (forall x s, definite (callback x s)) ->
  forall s, definite (forEachItem items callback s).
Proof.
  intros Hc. induction items as [|x rest IH]; intros s; simpl; [exact I|].
  apply definite_bind; auto.
Qed.

Lemma definite_forEach {S : Type} (v : JValue)
    (callback : JValue -> S -> Prog S) (s : S) :
  (forall x s', definite (callback x s')) -> definite (forEach v callback s).
Proof.
  intros Hc. destruct v; try exact I. apply definite_forEachItem, Hc.
Qed.

Create HintDb definite.

#[local] Hint Resolve definite_settle definite_get definite_getOptional
  definite_callStartsWith : definite.

(** Proves that a program built from these operations is definite. *)
Ltac decided :=
  repeat first
    [ progress intros
    | exact I
    | apply definite_bind
    | apply definite_tryCatch
    | apply definite_and
    | apply definite_forEach
    | match goal with
      | |- definite (if ?b then _ else _) => destruct b
      | |- definite (match ?o with _ => _ end) => destruct o
      end
    | solve [auto with definite] ].

Lemma definite_getJson (response : RequestUrlResponse) :
  definite (getJson response).
Proof.
  apply definite_settle.
Qed.

Lemma definite_deriveFullUrl (settings : DiscourseSyncSettings) (u : JValue) :
  definite (deriveFullUrl settings u).
Proof.
  unfold deriveFullUrl. decided.
Qed.

Lemma definite_pushCategory (category : JValue) (categories : list Category) :
  definite (pushCategory category categories).
Proof.
  unfold pushCategory, pushSubcategory. decided.
Qed.

#[local] Hint Resolve definite_getJson definite_deriveFullUrl
  definite_pushCategory : definite.

(** A definite program, by cases on how it ends. *)
Lemma definite_cases {A : Type} (p : Prog A) :
  definite p -> (exists a, p = Ret a) \/ (exists e, p = Throw e).
Proof.
  destruct p; simpl; intros H; try contradiction; eauto.
Qed.

Lemma definite_callJoin (v : JValue) (sep : string) :
  definite (callJoin v sep).
Proof.
  destruct v; exact I.
Qed.

(** A silent program leaves the trace as it is. *)
Lemma run_silent {A : Type} (p : Prog A) (w : World) (tr : Trace) :
  silent p -> snd (run w tr p) = tr.
Proof.
  destruct p; simpl; intros H; try contradiction; reflexivity.
Qed.

(** A [try] whose handler returns a value lets no exception out. *)
Lemma run_tryCatch_notThrown {A : Type} (p : Prog A) (h : JsError -> Prog A) :
  (forall e, exists a, h e = Ret a) ->
  forall (w : World) (tr : Trace), notThrown (fst (run w tr (tryCatch p h))).
Proof.
  intros Hh. induction p; simpl; intros w tr; auto.
  destruct (Hh e) as [a ->]. exact I.
Qed.

(** *** createPost and updatePost *)

Lemma errorResult_isFailure (t : string -> string) (key : string)
    (response : RequestUrlResponse) :
  ensures isFailure (errorResult t key response).
Proof.
  unfold errorResult, isFailure. apply ensures_bind.
  apply ensures_tryCatch; [| intro; simpl; eauto].
  ensure; eauto.
Qed.

Lemma createResult_failure (e : JValue) : createResult (failure e).
Proof.
  right. repeat split; discriminate.
Qed.

Lemma updateResult_failure (e : JValue) : updateResult (failure e).
Proof.
  repeat split. right. split; [reflexivity | discriminate].
Qed.

Section Coverage.

Variable t : string -> string.
Variable settings : DiscourseSyncSettings.

(** The failure branch keeps the trace and returns failures only. *)
Lemma run_errorResult_fails (w : World) (tr : Trace) (key : string)
    (response : RequestUrlResponse) (h : JsError -> Prog PostResult) :
  (forall e, exists x, h e = Ret (failure x)) ->
  snd (run w tr (tryCatch (errorResult t key response) h)) = tr
  /\ ~ succeeds (fst (run w tr (tryCatch (errorResult t key response) h)))
  /\ notThrown (fst (run w tr (tryCatch (errorResult t key response) h)))
  /\ (forall res,
         fst (run w tr (tryCatch (errorResult t key response) h))
         = Returned res -> isFailure res).
Proof.
  intros Hh.
  assert (Hs : silent (tryCatch (errorResult t key response) h)).
  { apply silent_tryCatch; [apply silent_errorResult|].
    intros e. destruct (Hh e) as [x ->]. exact I. }
  assert (He : ensures isFailure (tryCatch (errorResult t key response) h)).
  { apply ensures_tryCatch; [apply errorResult_isFailure|].
    intros e. destruct (Hh e) as [x ->]. exists x. reflexivity. }
  split; [apply run_silent, Hs|]. split.
  - intros (res & Hres & Hsucc).
    destruct (ensures_run _ _ He w tr res Hres) as [x ->]. discriminate Hsucc.
  - split.
    + apply run_tryCatch_notThrown. intros e. destruct (Hh e) as [x ->].
      eauto.
    + intros res Hres. exact (ensures_run _ _ He w tr res Hres).
Qed.

(** The failure branch returns when its guard is decided. *)
Lemma errorResult_returns (key : string) (response : RequestUrlResponse) :
  guardDecided response ->
  exists e, errorResult t key response = Ret (failure e).
Proof.
  intros Hguard. unfold errorResult, getJson.
  destruct (json response) as [data|e] eqn:Hjson; cbn [settle bind tryCatch];
    [|eauto].
  destruct (definite_cases _ (definite_get data "errors"))
    as [[errors Herrors]|[e Herrors]]; rewrite Herrors; cbn [bind tryCatch];
    [|eauto].
  pose proof (Hguard data errors Hjson Herrors) as Hdecided.
  unfold errorsGuard in Hdecided.
  set (rest := (err <- get data "error" ;;
                if truthy err then Ret (Some (failure err)) else Ret None)).
  assert (Herr : (exists x, rest = Ret (Some (failure x)))
                 \/ rest = Ret None \/ exists e, rest = Throw e).
  { unfold rest.
    destruct (definite_cases _ (definite_get data "error"))
      as [[err ->]|[e ->]]; cbn [bind].
    - destruct (truthy err); eauto.
    - eauto. }
  destruct (truthy errors).
  - destruct (get errors "length") as [len| | | | | |];
      try (exfalso; apply Hdecided; reflexivity). cbn [bind].
    destruct (greaterThanZero len) as [[|]| | | | | |];
      try (exfalso; apply Hdecided; reflexivity); cbn [bind].
    + destruct (definite_cases _ (definite_callJoin errors LF))
        as [[joined ->]|[e ->]]; cbn [bind tryCatch]; eauto.
    + destruct Herr as [[x ->] | [-> | [e ->]]]; cbn [bind tryCatch]; eauto.
  - cbn [bind].
    destruct Herr as [[x ->] | [-> | [e ->]]]; cbn [bind tryCatch]; eauto.
Qed.

(** What [createPost] does with the body of a 200 answer, lines 110-121. *)
Lemma created_result (data : JValue) :
  ensures createResult
    (hasId <- and data (get data "id") ;;
     if truthy hasId then
       pid <- get data "id" ;;
       tid <- get data "topic_id" ;;
       Ret {| success := true; postId := Some pid; topicId := Some tid;
              error := None |}
     else Ret (failure (JStr (t "POST_ID_ERROR")))).
Proof.
  unfold and. destruct (truthy data) eqn:Hd.
  - destruct (get_of_truthy data "id" Hd) as [x Hx]. rewrite Hx.
    cbn [bind]. destruct (truthy x) eqn:Hid.
    + cbn [bind].
      destruct (get_of_truthy data "topic_id" Hd) as [y ->]. cbn [bind].
      left. split; [reflexivity|]. split; [reflexivity|]. exists x. auto.
    + apply createResult_failure.
  - cbn [bind]. rewrite Hd. apply createResult_failure.
Qed.

Lemma created_definite (data : JValue) :
  definite
    (hasId <- and data (get data "id") ;;
     if truthy hasId then
       pid <- get data "id" ;;
       tid <- get data "topic_id" ;;
       Ret {| success := true; postId := Some pid; topicId := Some tid;
              error := None |}
     else Ret (failure (JStr (t "POST_ID_ERROR")))).
Proof.
  decided.
Qed.

(** X1: on every host [createPost] lets no exception out, and its one host
    call is its POST: it notifies nobody.  What it returns is a success with
    a truthy post id and no error, or a failure with an error and no id.
    It does return on every host on which the guard of the failure branch
    is decided: an answer with another status than 200 has no [errors]
    whose [length] is a string, an array or an object. *)
Theorem createPost_always_answers :
  forall (w : World) (tr0 : Trace) (title content : string) (category : Z)
         (tags : option (list string)),
    let r := createRequest settings title content category tags in
    exists c : Completion PostResult,
      run w tr0 (createPost t settings title content category tags)
      = (c, (tr0 ++ [Requested r])%list)
      /\ notThrown c
      /\ (forall res, c = Returned res -> createResult res)
      /\ ((forall resp,
              network w tr0 r = Done resp -> status resp <> 200%Z ->
              guardDecided resp) ->
          exists res, c = Returned res).
Proof.
  intros w tr0 title content category tags r.
  unfold createPost. rewrite run_try_request. fold r.
  set (h := fun error : JsError =>
              Ret (failure (JStr (t "PUBLISH_FAILED" ++ ": "
                                    ++ messageOrUnknown t error)))).
  assert (Hf : forall (e : JValue) (res : PostResult),
             Returned (failure e) = Returned res -> createResult res).
  { intros e res H. injection H as <-. apply createResult_failure. }
  destruct (network w tr0 r) as [resp|e] eqn:Hnet; cbn [settle bind].
  2:{ eexists. split; [reflexivity|]. split; [exact I|].
      split; [apply Hf | eauto]. }
  destruct (status resp =? 200)%Z eqn:Hst.
  - unfold getJson.
    destruct (json resp) as [data|e]; cbn [settle bind].
    2:{ eexists. split; [reflexivity|]. split; [exact I|].
        split; [apply Hf | eauto]. }
    pose proof (created_result data) as Hres.
    destruct (definite_cases _ (created_definite data))
      as [[res Hrun]|[e Hrun]]; rewrite Hrun in *.
    + eexists. split; [reflexivity|]. split; [exact I|].
      split; [|eauto]. intros res' H. injection H as <-. exact Hres.
    + eexists. split; [reflexivity|]. split; [exact I|].
      split; [apply Hf | eauto].
  - apply Z.eqb_neq in Hst.
    destruct (run_errorResult_fails w (tr0 ++ [Requested r])%list
                "PUBLISH_FAILED" resp h)
      as (Htr & _ & Hnt & Hres); [intros e; unfold h; eauto|].
    eexists. split; [rewrite <- Htr at 2; apply surjective_pairing|].
    split; [exact Hnt|]. split.
    + intros res H. destruct (Hres res H) as [x ->].
      apply createResult_failure.
    + intros Hguard.
      destruct (errorResult_returns "PUBLISH_FAILED" resp
                  (Hguard resp eq_refl Hst)) as [x ->].
      exists (failure x). reflexivity.
Qed.

(** The handler of the outer [try] of [updatePost]. *)
Lemma updatePost_run :
  forall (w : World) (tr0 : Trace) (postId topicId : Z)
         (title content : string) (category : Z) (tags : option (list string)),
    let post := postPut settings postId content in
    let topic := topicPut settings topicId title category tags in
    let thrown (e : JsError) :=
      failure (JStr (t "UPDATE_FAILED" ++ ": " ++ messageOrUnknown t e)) in
    run w tr0 (updatePost t settings postId topicId title content category
                 tags)
    = match network w tr0 post with
      | Raised e => (Returned (thrown e), (tr0 ++ [Requested post])%list)
      | Done r1 =>
          if negb (status r1 =? 200)%Z
          then (Returned (failure (JStr (t "UPDATE_FAILED" ++ " ("
                                           ++ string_of_Z (status r1) ++ ")"))),
                (tr0 ++ [Requested post])%list)
          else
            match network w (tr0 ++ [Requested post])%list topic with
            | Raised e =>
                (Returned (thrown e),
                 (tr0 ++ [Requested post; Requested topic])%list)
            | Done r2 =>
                if (status r2 =? 200)%Z
                then (Returned {| success := true; postId := None;
                                  topicId := None; error := None |},
                      (tr0 ++ [Requested post; Requested topic])%list)
                else run w (tr0 ++ [Requested post; Requested topic])%list
                       (tryCatch (errorResult t "UPDATE_FAILED" r2)
                          (fun e => Ret (thrown e)))
            end
      end.
Proof.
  intros w tr0 pid tid title content category tags post topic thrown.
  unfold updatePost. rewrite run_try_request. fold post.
  destruct (network w tr0 post) as [r1|e]; cbn [settle bind]; [|reflexivity].
  destruct (status r1 =? 200)%Z; cbn [negb]; [|reflexivity].
  rewrite run_try_request. fold topic. rewrite <- app_assoc.
  destruct (network w (tr0 ++ [Requested post])%list topic) as [r2|e];
    cbn [settle bind app]; [|reflexivity].
  destruct (status r2 =? 200)%Z; reflexivity.
Qed.

(** X2: [updatePost] succeeds exactly when the PUT of the post body and
    then the PUT of the topic are both answered with status 200; the two
    requests are then the host calls of the call, in this order. *)
Theorem updatePost_success_iff_both_200 :
  forall (w : World) (tr0 : Trace) (postId topicId : Z)
         (title content : string) (category : Z) (tags : option (list string)),
    let post := postPut settings postId content in
    let topic := topicPut settings topicId title category tags in
    let result :=
      run w tr0 (updatePost t settings postId topicId title content category
                   tags) in
    (succeeds (fst result)
     <-> exists r1 r2,
           network w tr0 post = Done r1 /\ status r1 = 200%Z
           /\ network w (tr0 ++ [Requested post])%list topic = Done r2
           /\ status r2 = 200%Z)
    /\ (succeeds (fst result) ->
        result = (Returned {| success := true; postId := None;
                              topicId := None; error := None |},
                  (tr0 ++ [Requested post; Requested topic])%list)).
Proof.
  intros w tr0 pid tid title content category tags post topic result.
  unfold result. rewrite updatePost_run. fold post. fold topic.
  destruct (network w tr0 post) as [r1|e] eqn:H1.
  2:{ split; [split|]; intros H.
      - exfalso. exact (not_succeeds_failure _ H).
      - destruct H as (r1 & r2 & H & _). discriminate H.
      - exfalso. exact (not_succeeds_failure _ H). }
  destruct (status r1 =? 200)%Z eqn:Hs1; cbn [negb].
  2:{ apply Z.eqb_neq in Hs1. split; [split|]; intros H.
      - exfalso. exact (not_succeeds_failure _ H).
      - destruct H as (r1' & r2 & H & Hst & _). injection H as <-.
        contradiction.
      - exfalso. exact (not_succeeds_failure _ H). }
  apply Z.eqb_eq in Hs1.
  destruct (network w (tr0 ++ [Requested post])%list topic) as [r2|e] eqn:H2.
  2:{ split; [split|]; intros H.
      - exfalso. exact (not_succeeds_failure _ H).
      - destruct H as (r1' & r2 & _ & _ & H & _). discriminate H.
      - exfalso. exact (not_succeeds_failure _ H). }
  destruct (status r2 =? 200)%Z eqn:Hs2.
  - apply Z.eqb_eq in Hs2. split; [split|]; intros H.
    + exists r1, r2. auto.
    + eexists. split; reflexivity.
    + reflexivity.
  - apply Z.eqb_neq in Hs2.
    destruct (run_errorResult_fails w
                (tr0 ++ [Requested post; Requested topic])%list
                "UPDATE_FAILED" r2
                (fun e => Ret (failure (JStr (t "UPDATE_FAILED" ++ ": "
                                 ++ messageOrUnknown t e)))))
      as (_ & Hfail & _); [intros e; eauto|].
    split; [split|]; intros H.
    + contradiction.
    + destruct H as (r1' & r2' & _ & _ & H & Hst). injection H as <-.
      contradiction.
    + contradiction.
Qed.

(** X3: on every host [updatePost] lets no exception out; its host calls
    are the PUT of the post body, followed or not by the PUT of the topic,
    and nothing else; what it returns is a bare success or a failure with
    an error.  It does return on every host on which the guard of the
    failure branch is decided: a topic PUT answered with another status
    than 200 has no [errors] whose [length] is a string, an array or an
    object. *)
Theorem updatePost_always_answers :
  forall (w : World) (tr0 : Trace) (postId topicId : Z)
         (title content : string) (category : Z) (tags : option (list string)),
    let post := postPut settings postId content in
    let topic := topicPut settings topicId title category tags in
    exists (c : Completion PostResult) (evs : Trace),
      run w tr0 (updatePost t settings postId topicId title content category
                   tags)
      = (c, (tr0 ++ Requested post :: evs)%list)
      /\ (evs = [] \/ evs = [Requested topic])
      /\ notThrown c
      /\ (forall res, c = Returned res -> updateResult res)
      /\ ((forall resp,
              network w (tr0 ++ [Requested post])%list topic = Done resp ->
              status resp <> 200%Z -> guardDecided resp) ->
          exists res, c = Returned res).
Proof.
  intros w tr0 pid tid title content category tags post topic.
  rewrite updatePost_run. fold post. fold topic.
  assert (Hf : forall (e : JValue) (res : PostResult),
             Returned (failure e) = Returned res -> updateResult res).
  { intros e res H. injection H as <-. apply updateResult_failure. }
  destruct (network w tr0 post) as [r1|e].
  2:{ eexists. exists []. split; [reflexivity|].
      split; [left; reflexivity|]. split; [exact I|].
      split; [apply Hf | eauto]. }
  destruct (status r1 =? 200)%Z; cbn [negb].
  2:{ eexists. exists []. split; [reflexivity|].
      split; [left; reflexivity|]. split; [exact I|].
      split; [apply Hf | eauto]. }
  destruct (network w (tr0 ++ [Requested post])%list topic) as [r2|e].
  2:{ eexists. exists [Requested topic]. split; [reflexivity|].
      split; [right; reflexivity|]. split; [exact I|].
      split; [apply Hf | eauto]. }
  destruct (status r2 =? 200)%Z eqn:Hst.
  - eexists. exists [Requested topic]. split; [reflexivity|].
    split; [right; reflexivity|]. split; [exact I|]. split; [|eauto].
    intros res H. injection H as <-.
    split; [reflexivity|]. split; [reflexivity|]. left. split; reflexivity.
  - apply Z.eqb_neq in Hst.
    set (h := fun e : JsError =>
                Ret (failure (JStr (t "UPDATE_FAILED" ++ ": "
                                      ++ messageOrUnknown t e)))).
    destruct (run_errorResult_fails w
                (tr0 ++ [Requested post; Requested topic])%list
                "UPDATE_FAILED" r2 h)
      as (Htr & _ & Hnt & Hres); [intros e; unfold h; eauto|].
    eexists. exists [Requested topic].
    split; [rewrite <- Htr at 2; apply surjective_pairing|].
    split; [right; reflexivity|]. split; [exact Hnt|]. split.
    + intros res H. destruct (Hres res H) as [x ->].
      apply updateResult_failure.
    + intros Hguard.
      destruct (errorResult_returns "UPDATE_FAILED" r2
                  (Hguard r2 eq_refl Hst)) as [x ->].
      exists (failure x). reflexivity.
Qed.


(** X5: when a PUT of [updatePost] throws, the call fails with the
    update-failed message and the message of the exception, or the
    unknown-error text when that message is empty; after an exception of
    the first PUT the topic PUT is not made. *)
Theorem updatePost_exception :
  forall (w : World) (tr0 : Trace) (postId topicId : Z)
         (title content : string) (category : Z) (tags : option (list string)),
    let post := postPut settings postId content in
    let topic := topicPut settings topicId title category tags in
    let result :=
      run w tr0 (updatePost t settings postId topicId title content category
                   tags) in
    let thrown (e : JsError) :=
      failure (JStr (t "UPDATE_FAILED" ++ ": "
                       ++ (if (err_message e =? "") then t "UNKNOWN_ERROR"
                           else err_message e))) in
    (forall e, network w tr0 post = Raised e ->
               result = (Returned (thrown e), (tr0 ++ [Requested post])%list))
    /\ (forall r1 e,
           network w tr0 post = Done r1 -> status r1 = 200%Z ->
           network w (tr0 ++ [Requested post])%list topic = Raised e ->
           result = (Returned (thrown e),
                     (tr0 ++ [Requested post; Requested topic])%list)).
Proof.
  intros w tr0 pid tid title content category tags post topic result thrown.
  unfold result. rewrite updatePost_run. fold post. fold topic. split.
  - intros e H1. rewrite H1. reflexivity.
  - intros r1 e H1 Hs1 H2. rewrite H1, Hs1. cbn [Z.eqb Pos.eqb negb].
    rewrite H2. reflexivity.
Qed.

(** X6: with a base URL and a key set, [testApiKey] makes one GET of
    [/site.json] and returns on every host.  The key is reported valid
    exactly when the answer has status 200 and a truthy body; a falsy body
    gives the invalid-key message, another status the same message with the
    status code, and an exception of the request or of the body the same
    message with the text of the exception. *)
Theorem testApiKey_verdict :
  forall (w : World) (tr0 : Trace),
    unset (baseUrl settings) = false ->
    unset (userApiKey settings) = false ->
    let r := getRequest settings "/site.json" in
    exists res : TestResult,
      run w tr0 (testApiKey t settings)
      = (Returned res, (tr0 ++ [Requested r])%list)
      /\ (test_success res = true
          <-> exists resp data,
                network w tr0 r = Done resp /\ status resp = 200%Z
                /\ json resp = Done data /\ truthy data = true)
      /\ (test_success res = true -> message res = t "API_TEST_SUCCESS")
      /\ (forall resp data,
             network w tr0 r = Done resp -> status resp = 200%Z ->
             json resp = Done data -> truthy data = false ->
             message res = t "API_KEY_INVALID")
      /\ (forall resp,
             network w tr0 r = Done resp -> status resp <> 200%Z ->
             message res = t "API_KEY_INVALID" ++ " ("
                             ++ string_of_Z (status resp) ++ ")")
      /\ (forall e,
             throwsAt w tr0 r e ->
             message res = t "API_KEY_INVALID" ++ ": "
                             ++ (if (err_message e =? "") then t "UNKNOWN_ERROR"
                                 else err_message e)).
Proof.
  intros w tr0 Hb Hk r. unfold testApiKey. rewrite Hb, Hk. cbn [orb].
  rewrite run_try_request. fold r. unfold throwsAt.
  destruct (network w tr0 r) as [resp|e] eqn:Hnet.
  2:{ eexists. split; [reflexivity|]. cbn [test_success message].
      split; [split; [discriminate | intros (? & ? & H & _); discriminate H]|].
      split; [discriminate|].
      split; [intros ? ? H; discriminate H|].
      split; [intros ? H; discriminate H|].
      intros e' [H | (? & H & _)]; [|discriminate H].
      injection H as <-. reflexivity. }
  cbn [settle bind].
  destruct (status resp =? 200)%Z eqn:Hst.
  2:{ apply Z.eqb_neq in Hst.
      eexists. split; [reflexivity|]. cbn [test_success message].
      split; [split; [discriminate|]|].
      { intros (? & ? & H & Hs & _). injection H as <-. contradiction. }
      split; [discriminate|].
      split; [intros ? ? H Hs; injection H as <-; contradiction|].
      split; [intros ? H _; injection H as <-; reflexivity|].
      intros e' [H | (? & H & Hs & _)]; [discriminate H|].
      injection H as <-. contradiction. }
  apply Z.eqb_eq in Hst. unfold getJson.
  destruct (json resp) as [data|e] eqn:Hjson.
  2:{ eexists. split; [reflexivity|]. cbn [test_success message].
      split; [split; [discriminate|]|].
      { intros (? & ? & H & _ & Hj & _). injection H as <-.
        rewrite Hjson in Hj. discriminate Hj. }
      split; [discriminate|].
      split; [intros ? ? H _ Hj; injection H as <-;
              rewrite Hjson in Hj; discriminate Hj|].
      split; [intros ? H Hs; injection H as <-; contradiction|].
      intros e' [H | (? & H & _ & Hj)]; [discriminate H|].
      injection H as <-. rewrite Hjson in Hj. injection Hj as <-.
      reflexivity. }
  cbn [settle bind].
  destruct (truthy data) eqn:Htruthy.
  - eexists. split; [reflexivity|]. cbn [test_success message].
    split; [split; [intros _; exists resp, data; auto | reflexivity]|].
    split; [reflexivity|].
    split; [intros ? ? H _ Hj Ht; injection H as <-;
            rewrite Hjson in Hj; injection Hj as <-;
            rewrite Htruthy in Ht; discriminate Ht|].
    split; [intros ? H Hs; injection H as <-; contradiction|].
    intros e' [H | (? & H & _ & Hj)]; [discriminate H|].
    injection H as <-. rewrite Hjson in Hj. discriminate Hj.
  - eexists. split; [reflexivity|]. cbn [test_success message].
    split; [split; [discriminate|]|].
    { intros (? & ? & H & _ & Hj & Ht). injection H as <-.
      rewrite Hjson in Hj. injection Hj as <-.
      rewrite Htruthy in Ht. discriminate Ht. }
    split; [discriminate|].
    split; [reflexivity|].
    split; [intros ? H Hs; injection H as <-; contradiction|].
    intros e' [H | (? & H & _ & Hj)]; [discriminate H|].
    injection H as <-. rewrite Hjson in Hj. discriminate Hj.
Qed.

End Coverage.

(** *** Typed arrays *)

Lemma skipn_repeat_add {A : Type} (x : A) (n k : nat) :
  skipn n (repeat x (n + k)) = repeat x k.
Proof.
  induction n as [|n IH]; simpl; auto.
Qed.

(** Writing [source] where the written prefix [pre] ends, into an array
    whose rest is still as allocated. *)
Lemma typedArraySet_next (pre source : list byte) (k : nat) :
  typedArraySet (pre ++ repeat x00 (List.length source + k))%list source
    (List.length pre)
  = Done ((pre ++ source) ++ repeat x00 k)%list.
Proof.
  unfold typedArraySet.
  rewrite length_app, repeat_length.
  replace (List.length pre + List.length source
           <=? List.length pre + (List.length source + k))%nat with true
    by (symmetry; apply Nat.leb_le; lia).
  rewrite firstn_app, Nat.sub_diag, firstn_all. cbn [firstn].
  rewrite app_nil_r, skipn_app.
  rewrite (skipn_all2 pre) by lia.
  replace (List.length pre + List.length source - List.length pre)%nat
    with (List.length source) by lia.
  rewrite skipn_repeat_add. cbn [app]. rewrite <- app_assoc. reflexivity.
Qed.

Lemma ensures_ret {A : Type} (P : A -> Prop) (p : Prog A) (a : A) :
  ensures P p -> p = Ret a -> P a.
Proof.
  intros H ->. exact H.
Qed.

Section Uploads.

Variable settings : DiscourseSyncSettings.

(** What [uploadImage] does with an answer of status 200, lines 55-74. *)
Lemma upload_answer_definite (response : RequestUrlResponse) :
  definite
    (jsonResponse <- getJson response ;;
     u <- get jsonResponse "url" ;;
     full <- deriveFullUrl settings u ;;
     short <- get jsonResponse "short_url" ;;
     Ret (Some {| shortUrl := short; fullUrl := full |})).
Proof.
  decided.
Qed.

Lemma upload_answer_some (response : RequestUrlResponse) :
  ensures (fun res : option UploadResult => res <> None)
    (jsonResponse <- getJson response ;;
     u <- get jsonResponse "url" ;;
     full <- deriveFullUrl settings u ;;
     short <- get jsonResponse "short_url" ;;
     Ret (Some {| shortUrl := short; fullUrl := full |})).
Proof.
  ensure. discriminate.
Qed.

(** X7: on every host [uploadImage] returns, and lets no exception out.
    It reads the file first and makes at most one request, an upload of the
    bytes it has read; it returns an upload exactly when that request was
    answered with status 200 and nothing was notified, and [null] exactly
    when it ended on one notification. *)
Theorem uploadImage_always_answers :
  forall (w : World) (tr0 : Trace) (file : TFile),
    let tr1 := (tr0 ++ [ReadFile file])%list in
    exists (res : option UploadResult) (evs : Trace),
      run w tr0 (uploadImage settings file) = (Returned res, (tr1 ++ evs)%list)
      /\ match res with
         | Some _ =>
             exists bytes resp,
               vault w tr0 file = Done bytes
               /\ let req :=
                    uploadRequest settings file bytes
                      ("ObsidianBoundary" ++ random w tr1) in
                  evs = [Requested req]
                  /\ network w tr1 req = Done resp /\ status resp = 200%Z
         | None =>
             exists msg,
               evs = [Notified msg]
               \/ exists bytes,
                    vault w tr0 file = Done bytes
                    /\ evs = [Requested
                                (uploadRequest settings file bytes
                                   ("ObsidianBoundary" ++ random w tr1));
                              Notified msg]
         end.
Proof.
  intros w tr0 file tr1. unfold uploadImage. cbn [readBinary bind tryCatch run].
  fold tr1.
  destruct (vault w tr0 file) as [bytes|e] eqn:Hvault.
  2:{ cbn [settle bind tryCatch run notify]. exists None. eexists.
      split; [reflexivity|]. eauto. }
  cbn [settle bind genBoundary randomHexDigits tryCatch run].
  set (req := uploadRequest settings file bytes
                ("ObsidianBoundary" ++ random w tr1)).
  rewrite run_try_request.
  destruct (network w tr1 req) as [resp|e] eqn:Hnet.
  2:{ cbn [settle bind tryCatch run notify]. exists None. eexists.
      rewrite <- app_assoc.
      split; [reflexivity|]. eexists. right. exists bytes.
      split; reflexivity. }
  cbn [settle bind].
  destruct (status resp =? 200)%Z eqn:Hst.
  2:{ cbn [settle bind tryCatch run notify]. exists None. eexists.
      rewrite <- app_assoc.
      split; [reflexivity|]. eexists. right. exists bytes.
      split; reflexivity. }
  apply Z.eqb_eq in Hst.
  destruct (definite_cases _ (upload_answer_definite resp)) as [[a Ha]|[e He]].
  - rewrite Ha. cbn [settle bind tryCatch run notify].
    pose proof (ensures_ret _ _ _ (upload_answer_some resp) Ha) as Hsome.
    destruct a as [u|]; [|contradiction].
    exists (Some u). eexists. split; [reflexivity|].
    exists bytes, resp. auto.
  - rewrite He. cbn [settle bind tryCatch run notify]. exists None. eexists.
    rewrite <- app_assoc.
    split; [reflexivity|]. eexists. right. exists bytes.
      split; reflexivity.
Qed.

(** X8: the failures of [uploadImage].  A file that cannot be read gives
    [null] and the exception notification with no request made; an
    exception of the request, an unparsable body or a [null] body of a 200
    answer give [null] and the exception notification after the request;
    another status gives [null] and the notification of the status code. *)
Theorem uploadImage_failure_paths :
  forall (w : World) (tr0 : Trace) (file : TFile),
    let tr1 := (tr0 ++ [ReadFile file])%list in
    let result := run w tr0 (uploadImage settings file) in
    (forall e,
       vault w tr0 file = Raised e ->
       result = (Returned None, (tr1 ++ [uploadException e])%list))
    /\ (forall bytes,
          vault w tr0 file = Done bytes ->
          let req :=
            uploadRequest settings file bytes
              ("ObsidianBoundary" ++ random w tr1) in
          (forall e,
             network w tr1 req = Raised e ->
             result = (Returned None,
                       (tr1 ++ [Requested req; uploadException e])%list))
          /\ (forall resp,
                network w tr1 req = Done resp -> status resp <> 200%Z ->
                result
                = (Returned None,
                   (tr1 ++ [Requested req;
                            Notified ("Error uploading image: "
                                        ++ string_of_Z (status resp))])%list))
          /\ (forall resp e,
                network w tr1 req = Done resp -> status resp = 200%Z ->
                json resp = Raised e ->
                result = (Returned None,
                          (tr1 ++ [Requested req; uploadException e])%list))
          /\ (forall resp,
                network w tr1 req = Done resp -> status resp = 200%Z ->
                json resp = Done JNull ->
                result
                = (Returned None,
                   (tr1 ++ [Requested req;
                            uploadException
                              (TypeError "Cannot read properties of null (reading 'url')")])%list))).
Proof.
  intros w tr0 file tr1 result. split.
  - intros e He. unfold result, uploadImage.
    cbn [readBinary bind tryCatch run]. rewrite He. reflexivity.
  - intros bytes Hb req. unfold result, uploadImage.
    cbn [readBinary bind tryCatch run]. fold tr1. rewrite Hb.
    cbn [settle bind genBoundary randomHexDigits tryCatch run]. fold req.
    rewrite run_try_request.
    split; [|split; [|split]].
    + intros e ->. cbn [settle bind tryCatch run notify].
      rewrite <- app_assoc. reflexivity.
    + intros resp -> Hst. cbn [settle bind].
      rewrite (status_not_200 _ Hst). cbn [settle bind tryCatch run notify].
      rewrite <- app_assoc. reflexivity.
    + intros resp e -> Hst Hjson. cbn [settle bind]. rewrite Hst.
      unfold getJson. rewrite Hjson.
      cbn [settle bind tryCatch run notify Z.eqb Pos.eqb].
      rewrite <- app_assoc. reflexivity.
    + intros resp -> Hst Hjson. cbn [settle bind]. rewrite Hst.
      unfold getJson. rewrite Hjson.
      cbn [settle bind tryCatch run notify get Z.eqb Pos.eqb].
      rewrite <- app_assoc. reflexivity.
Qed.

(** X9: the four [set] calls that fill the multipart body never go out of
    bounds and overwrite nothing written before: the array ends as the file
    part, the bytes of the file, the form fields and the closing boundary,
    one after the other, with no byte left as allocated.  This array is the
    body of the request of [uploadImage], so the bytes read from the file
    are sent as they are, after the header of the file part. *)
Theorem formDataArray_tiles :
  forall (imgFormArray imgfile bodyArray endBoundaryArray : list byte),
    formDataArray imgFormArray imgfile bodyArray endBoundaryArray
    = Done (imgFormArray ++ imgfile ++ bodyArray ++ endBoundaryArray)%list
    /\ forall (file : TFile) (boundary : string),
         body (uploadRequest settings file imgfile boundary)
         = Some (Buffer (encode (imgForm file boundary) ++ imgfile
                           ++ encode (formBody boundary)
                           ++ encode (eBoundary boundary))%list).
Proof.
  intros a b c d. split.
  - unfold formDataArray, newUint8Array.
    pose proof (typedArraySet_next [] a
                  (List.length b + List.length c + List.length d)) as H1.
    cbn [app List.length] in H1.
    replace (List.length a + List.length b + List.length c + List.length d)%nat
      with (List.length a + (List.length b + List.length c + List.length d))%nat
      by lia.
    rewrite H1. cbn [andThen].
    pose proof (typedArraySet_next a b (List.length c + List.length d)) as H2.
    replace (List.length b + List.length c + List.length d)%nat
      with (List.length b + (List.length c + List.length d))%nat by lia.
    rewrite H2. cbn [andThen].
    pose proof (typedArraySet_next (a ++ b) c (List.length d)) as H3.
    rewrite length_app in H3. rewrite H3. cbn [andThen].
    pose proof (typedArraySet_next ((a ++ b) ++ c) d 0) as H4.
    rewrite !length_app, Nat.add_0_r in H4. cbn [repeat] in H4.
    replace (List.length a + List.length c + List.length b)%nat
      with (List.length a + List.length b + List.length c)%nat by lia.
    rewrite H4. rewrite app_nil_r, <- !app_assoc. reflexivity.
  - intros file boundary. reflexivity.
Qed.

End Uploads.

(** *** The read methods *)

Lemma silent_cases {A : Type} (p : Prog A) :
  silent p ->
  (exists a, p = Ret a) \/ (exists e, p = Throw e) \/ p = Unmodelled.
Proof.
  destruct p; simpl; intros H; try contradiction; eauto.
Qed.

(** A loop over a list with a [null] entry throws when the callback reads
    a property of the entry first. *)
Lemma forEachItem_null {S : Type} (callback : JValue -> S -> Prog S) :
  (forall x s, definite (callback x s)) ->
  (forall s, exists e, callback JNull s = Throw e) ->
  forall items s,
    In JNull items -> exists e, forEachItem items callback s = Throw e.
Proof.
  intros Hdef Hnull. induction items as [|x rest IH]; intros s Hin.
  - destruct Hin.
  - cbn [forEachItem].
    destruct (definite_cases _ (Hdef x s)) as [[s' Hs]|[e He]].
    + rewrite Hs. cbn [bind]. destruct Hin as [->|Hin]; [|auto].
      destruct (Hnull s) as [e He]. rewrite He in Hs. discriminate Hs.
    + rewrite He. cbn [bind]. eauto.
Qed.

Section Reads.

Variable settings : DiscourseSyncSettings.

Lemma categoriesOf_definite (data : JValue) : definite (categoriesOf data).
Proof.
  unfold categoriesOf. decided.
Qed.

Lemma fetchCategories_run (w : World) (tr0 : Trace) :
  let r := getRequest settings "/categories.json?include_subcategories=true" in
  let caught (e : JsError) : Completion (list Category) * Trace :=
    (Returned [],
     (tr0 ++ [Requested r;
              Notified ("Exception while fetching categories: "
                          ++ errorToString e)])%list) in
  run w tr0 (fetchCategories settings)
  = match network w tr0 r with
    | Raised e => caught e
    | Done resp =>
        if (status resp =? 200)%Z then
          match json resp with
          | Raised e => caught e
          | Done data =>
              match categoriesOf data with
              | Ret cats => (Returned cats, (tr0 ++ [Requested r])%list)
              | Throw e => caught e
              | _ => (NotModelled, (tr0 ++ [Requested r])%list)
              end
          end
        else
          (Returned [],
           (tr0 ++ [Requested r;
                    Notified ("Error fetching categories: "
                                ++ string_of_Z (status resp))])%list)
    end.
Proof.
  intros r caught. unfold fetchCategories. rewrite run_try_request. fold r.
  destruct (network w tr0 r) as [resp|e]; cbn [settle bind].
  2:{ cbn [tryCatch run notify bind]. unfold caught.
      rewrite <- app_assoc. reflexivity. }
  destruct (status resp =? 200)%Z.
  2:{ cbn [tryCatch run notify bind]. rewrite <- app_assoc. reflexivity. }
  unfold getJson. destruct (json resp) as [data|e]; cbn [settle bind].
  2:{ cbn [tryCatch run notify bind]. unfold caught.
      rewrite <- app_assoc. reflexivity. }
  fold (categoriesOf data).
  destruct (definite_cases _ (categoriesOf_definite data))
    as [[cats ->]|[e ->]].
  - reflexivity.
  - cbn [tryCatch run notify bind]. unfold caught.
    rewrite <- app_assoc. reflexivity.
Qed.

(** X10: on every host [fetchCategories] returns a list and lets no
    exception out; it makes its one request, and then either notifies
    nothing, or notifies once and returns the empty list. *)
Theorem fetchCategories_always_answers :
  forall (w : World) (tr0 : Trace),
    let r := getRequest settings
               "/categories.json?include_subcategories=true" in
    exists (cats : list Category) (evs : Trace),
      run w tr0 (fetchCategories settings)
      = (Returned cats, (tr0 ++ Requested r :: evs)%list)
      /\ (evs = [] \/ (cats = [] /\ exists msg, evs = [Notified msg])).
Proof.
  intros w tr0 r. rewrite fetchCategories_run. fold r.
  destruct (network w tr0 r) as [resp|e].
  2:{ exists []. eexists. split; [reflexivity|]. right. eauto. }
  destruct (status resp =? 200)%Z.
  2:{ exists []. eexists. split; [reflexivity|]. right. eauto. }
  destruct (json resp) as [data|e].
  2:{ exists []. eexists. split; [reflexivity|]. right. eauto. }
  destruct (definite_cases _ (categoriesOf_definite data))
    as [[cats ->]|[e ->]].
  - exists cats, []. split; [reflexivity|]. left. reflexivity.
  - exists []. eexists. split; [reflexivity|]. right. eauto.
Qed.

(** X11: the empty results of [fetchCategories].  Another status than 200
    is notified with its code, and an exception of the request or of the
    body with its text.  A body that is falsy, or has no truthy
    [category_list], or no truthy [categories] in it, gives the empty list
    with no notification.  A [null] entry in the list of categories makes
    the loop throw: the call notifies the exception and returns the empty
    list, the categories read before it included. *)
Theorem fetchCategories_empty_results :
  forall (w : World) (tr0 : Trace),
    let r := getRequest settings
               "/categories.json?include_subcategories=true" in
    let result := run w tr0 (fetchCategories settings) in
    let quiet := (Returned ([] : list Category), (tr0 ++ [Requested r])%list) in
    (forall resp,
       network w tr0 r = Done resp -> status resp <> 200%Z ->
       result
       = (Returned [],
          (tr0 ++ [Requested r;
                   Notified ("Error fetching categories: "
                               ++ string_of_Z (status resp))])%list))
    /\ (forall e,
          throwsAt w tr0 r e ->
          result
          = (Returned [],
             (tr0 ++ [Requested r;
                      Notified ("Exception while fetching categories: "
                                  ++ errorToString e)])%list))
    /\ (forall resp data,
          network w tr0 r = Done resp -> status resp = 200%Z ->
          json resp = Done data ->
          (truthy data = false -> result = quiet)
          /\ (forall list,
                get data "category_list" = Ret list ->
                (truthy list = false -> result = quiet)
                /\ (forall cats,
                      get list "categories" = Ret cats ->
                      (truthy cats = false -> result = quiet)
                      /\ (forall items,
                            truthy data = true -> truthy list = true ->
                            cats = JArr items -> In JNull items ->
                            exists msg,
                              result
                              = (Returned [],
                                 (tr0 ++ [Requested r; Notified msg])%list))))).
Proof.
  intros w tr0 r result quiet. unfold result. rewrite fetchCategories_run.
  fold r. unfold throwsAt. split; [|split].
  - intros resp -> Hst. rewrite (status_not_200 _ Hst). reflexivity.
  - intros e [-> | (resp & -> & -> & ->)]; reflexivity.
  - intros resp data -> -> ->. cbn [Z.eqb Pos.eqb]. unfold categoriesOf, and.
    split.
    + intros Hd. rewrite Hd. cbn [bind]. rewrite Hd. cbn [bind].
      rewrite Hd. reflexivity.
    + intros list Hlist. rewrite Hlist. split.
      * intros Hfalse. destruct (truthy data) eqn:Hd; cbn [bind].
        -- rewrite Hfalse. cbn [bind]. rewrite Hfalse. reflexivity.
        -- rewrite Hd. cbn [bind]. rewrite Hd. reflexivity.
      * intros cats Hcats. split.
        -- intros Hfalse. destruct (truthy data) eqn:Hd; cbn [bind].
           ++ destruct (truthy list) eqn:Hl; cbn [bind].
              ** rewrite Hcats. cbn [bind]. rewrite Hfalse. reflexivity.
              ** rewrite Hl. reflexivity.
           ++ rewrite Hd. cbn [bind]. rewrite Hd. reflexivity.
        -- intros items Hd Hl -> Hin. rewrite Hd. cbn [bind]. rewrite Hl.
           cbn [bind]. rewrite Hcats. cbn [bind truthy forEach].
           destruct (forEachItem_null pushCategory
                       (fun x s => definite_pushCategory x s)
                       (fun s => ex_intro _ _ eq_refl) items [] Hin)
             as [e ->].
           cbn [bind]. eauto.
Qed.

Lemma silent_listTags (can data : JValue) : silent (listTags can data).
Proof.
  unfold listTags.
  apply silent_bind; [apply silent_mergeTags|]. intros allTags.
  apply silent_bind; [apply silent_sortByCount|]. intros sorted. exact I.
Qed.

Lemma listTags_one_value (can data : JValue) :
  ensures (fun tags : list Tag =>
             forall tag, In tag tags -> canCreate tag = can)
    (listTags can data).
Proof.
  unfold listTags. ensure. intros tag Hin.
  apply in_map_iff in Hin. destruct Hin as (e & <- & _). reflexivity.
Qed.

Lemma fetchTags_run (w : World) (tr0 : Trace) :
  let r := getRequest settings "/tags.json" in
  let tr1 := (tr0 ++ [Requested r])%list in
  let caught (tr : Trace) (e : JsError) : Completion (list Tag) * Trace :=
    (Returned [], (tr ++ [tagsException e])%list) in
  run w tr0 (fetchTags settings)
  = match network w tr0 r with
    | Raised e => caught tr1 e
    | Done resp =>
        if (status resp =? 200)%Z then
          match json resp with
          | Raised e => caught tr1 e
          | Done data =>
              match and data (get data "tags") with
              | Ret hasTags =>
                  if truthy hasTags then
                    match run w tr1 (checkCanCreateTags settings) with
                    | (Returned can, tr2) =>
                        match listTags can data with
                        | Ret tags => (Returned tags, tr2)
                        | Throw e => caught tr2 e
                        | _ => (NotModelled, tr2)
                        end
                    | (Threw e, tr2) => caught tr2 e
                    | (NotModelled, tr2) => (NotModelled, tr2)
                    end
                  else (Returned [], tr1)
              | Throw e => caught tr1 e
              | _ => (NotModelled, tr1)
              end
          end
        else
          (Returned [],
           (tr1 ++ [Notified ("Error fetching tags: "
                                ++ string_of_Z (status resp))])%list)
    end.
Proof.
  intros r tr1 caught. unfold fetchTags. rewrite run_try_request.
  fold r. fold tr1.
  destruct (network w tr0 r) as [resp|e]; cbn [settle bind].
  2:{ reflexivity. }
  destruct (status resp =? 200)%Z.
  2:{ reflexivity. }
  unfold getJson. destruct (json resp) as [data|e]; cbn [settle bind].
  2:{ reflexivity. }
  assert (Hand : silent (and data (get data "tags"))) by quiet.
  destruct (silent_cases _ Hand) as [[x ->]|[[e ->]| ->]]; cbn [bind].
  2:{ reflexivity. }
  2:{ reflexivity. }
  destruct (truthy x).
  2:{ reflexivity. }
  rewrite run_try_bind.
  destruct (run w tr1 (checkCanCreateTags settings)) as [[can|e|] tr2].
  2:{ reflexivity. }
  2:{ reflexivity. }
  fold (listTags can data).
  destruct (silent_cases _ (silent_listTags can data))
    as [[tags ->]|[[e ->]| ->]]; reflexivity.
Qed.

(** X12: on every host [fetchTags] lets no exception out.  It makes the
    request for the tags and at most one more, the probe of site.json, and
    it notifies at most once, as its last host call; when it notifies, it
    returns the empty list. *)
Theorem fetchTags_always_answers :
  forall (w : World) (tr0 : Trace),
    let r := getRequest settings "/tags.json" in
    let site := getRequest settings "/site.json" in
    exists (c : Completion (list Tag)) (evs : Trace),
      run w tr0 (fetchTags settings) = (c, (tr0 ++ Requested r :: evs)%list)
      /\ notThrown c
      /\ (evs = [] \/ evs = [Requested site]
          \/ exists msg,
               c = Returned []
               /\ (evs = [Notified msg]
                   \/ evs = [Requested site; Notified msg])).
Proof.
  intros w tr0 r site. rewrite fetchTags_run. fold r.
  assert (Hshape : forall (c : Completion (list Tag)) (evs : Trace),
            (c, ((tr0 ++ [Requested r]) ++ evs)%list)
            = (c, (tr0 ++ Requested r :: evs)%list)).
  { intros c evs. rewrite <- app_assoc. reflexivity. }
  assert (Hnote : forall msg : string,
            exists (c : Completion (list Tag)) (evs : Trace),
              (Returned [], ((tr0 ++ [Requested r]) ++ [Notified msg])%list)
              = (c, (tr0 ++ Requested r :: evs)%list)
              /\ notThrown c
              /\ (evs = [] \/ evs = [Requested site]
                  \/ exists msg,
                       c = Returned []
                       /\ (evs = [Notified msg]
                           \/ evs = [Requested site; Notified msg]))).
  { intros msg. exists (Returned []), [Notified msg].
    split; [apply Hshape|]. split; [exact I|]. right. right. eauto. }
  assert (Hnone : forall c : Completion (list Tag),
            notThrown c ->
            exists (c' : Completion (list Tag)) (evs : Trace),
              (c, (tr0 ++ [Requested r])%list)
              = (c', (tr0 ++ Requested r :: evs)%list)
              /\ notThrown c'
              /\ (evs = [] \/ evs = [Requested site]
                  \/ exists msg,
                       c' = Returned []
                       /\ (evs = [Notified msg]
                           \/ evs = [Requested site; Notified msg]))).
  { intros c Hc. exists c, []. split; [reflexivity|]. auto. }
  destruct (network w tr0 r) as [resp|e]; [|apply Hnote].
  destruct (status resp =? 200)%Z; [|apply Hnote].
  destruct (json resp) as [data|e]; [|apply Hnote].
  destruct (and data (get data "tags")) as [x|e| | | | |];
    try (apply Hnone; exact I); [|apply Hnote].
  destruct (truthy x); [|apply Hnone; exact I].
  destruct (checkCanCreateTags_returns settings w (tr0 ++ [Requested r])%list)
    as [can ->]. fold site.
  destruct (listTags can data) as [tags|e| | | | |];
    try (eexists; exists [Requested site]; rewrite <- app_assoc;
         split; [reflexivity|]; split; [exact I|]; right; left; reflexivity).
  exists (Returned []). eexists. rewrite <- !app_assoc.
  split; [reflexivity|]. split; [exact I|]. right. right.
  eexists. split; [reflexivity|]. right. reflexivity.
Qed.

(** X13: every tag [fetchTags] returns has the same [canCreate]: the value
    [checkCanCreateTags] returns when it runs after the request for the
    tags, whatever the body of the tags holds. *)
Theorem fetchTags_one_permission :
  forall (w : World) (tr0 : Trace) (tags : list Tag),
    fst (run w tr0 (fetchTags settings)) = Returned tags ->
    exists can : JValue,
      fst (run w (tr0 ++ [Requested (getRequest settings "/tags.json")])%list
             (checkCanCreateTags settings))
      = Returned can
      /\ forall tag, In tag tags -> canCreate tag = can.
Proof.
  intros w tr0 tags. rewrite fetchTags_run.
  set (r := getRequest settings "/tags.json").
  destruct (checkCanCreateTags_returns settings w (tr0 ++ [Requested r])%list)
    as [can Hcan].
  rewrite Hcan. cbn [fst]. intros Hrun. exists can.
  split; [reflexivity|].
  assert (Hnil : Returned ([] : list Tag) = Returned tags ->
                 forall tag, In tag tags -> canCreate tag = can).
  { intros H. injection H as <-. intros tag []. }
  destruct (network w tr0 r) as [resp|e]; [|exact (Hnil Hrun)].
  destruct (status resp =? 200)%Z; [|exact (Hnil Hrun)].
  destruct (json resp) as [data|e]; [|exact (Hnil Hrun)].
  destruct (and data (get data "tags")) as [x|e| | | | |];
    try discriminate Hrun; [|exact (Hnil Hrun)].
  destruct (truthy x); [|exact (Hnil Hrun)].
  pose proof (listTags_one_value can data) as Hall.
  destruct (listTags can data) as [tags'|e| | | | |];
    try discriminate Hrun; [|exact (Hnil Hrun)].
  injection Hrun as <-. exact Hall.
Qed.

Lemma definite_addTag (tag : JValue) (allTags : TagMap) :
  definite (addTag tag allTags).
Proof.
  unfold addTag. decided.
Qed.

Lemma get_array_truthy (data : JValue) (p : string) (items : list JValue) :
  get data p = Ret (JArr items) -> truthy data = true.
Proof.
  destruct data; simpl; try discriminate; auto;
    destruct (p =? "length"); discriminate.
Qed.

(** X14: the empty results of [fetchTags].  Another status than 200 is
    notified with its code and an exception of the request or of the body
    with its text, both without the probe of site.json.  A [null] entry in
    the list of tags is met after the probe: the call makes both requests,
    notifies the exception and returns no tag at all. *)
Theorem fetchTags_empty_results :
  forall (w : World) (tr0 : Trace),
    let r := getRequest settings "/tags.json" in
    let site := getRequest settings "/site.json" in
    let result := run w tr0 (fetchTags settings) in
    (forall resp,
       network w tr0 r = Done resp -> status resp <> 200%Z ->
       result
       = (Returned [],
          (tr0 ++ [Requested r;
                   Notified ("Error fetching tags: "
                               ++ string_of_Z (status resp))])%list))
    /\ (forall e,
          throwsAt w tr0 r e ->
          result = (Returned [], (tr0 ++ [Requested r; tagsException e])%list))
    /\ (forall resp data items,
          network w tr0 r = Done resp -> status resp = 200%Z ->
          json resp = Done data ->
          get data "tags" = Ret (JArr items) -> In JNull items ->
          exists msg,
            result
            = (Returned [],
               (tr0 ++ [Requested r; Requested site; Notified msg])%list)).
Proof.
  intros w tr0 r site result. unfold result. rewrite fetchTags_run.
  fold r. unfold throwsAt. split; [|split].
  - intros resp -> Hst. rewrite (status_not_200 _ Hst).
    rewrite <- app_assoc. reflexivity.
  - intros e [-> | (resp & -> & -> & ->)]; rewrite <- app_assoc; reflexivity.
  - intros resp data items -> -> -> Htags Hin. cbn [Z.eqb Pos.eqb].
    unfold and. rewrite (get_array_truthy _ _ _ Htags), Htags.
    cbn [truthy].
    destruct (checkCanCreateTags_returns settings w
                (tr0 ++ [Requested r])%list) as [can ->].
    fold site. unfold listTags, mergeTags. rewrite Htags.
    cbn [bind forEach].
    destruct (forEachItem_null addTag definite_addTag
                (fun s => ex_intro _ _ eq_refl) items [] Hin) as [e ->].
    cbn [bind]. eexists. rewrite <- !app_assoc. reflexivity.
Qed.

End Reads.

(** *** The order of the tags *)

Lemma sortKeys_ret (m : TagMap) :
  forall keyed,
    sortKeys m = Ret keyed -> map snd keyed = m /\ Forall keyOf keyed.
Proof.
  induction m as [|e rest IH]; cbn [sortKeys]; intros keyed H.
  - injection H as <-. split; [reflexivity | constructor].
  - unfold sortKey in H.
    destruct (toNumber (count e)) as [[z|]|err| | | | |] eqn:Hn;
      cbn [bind] in H; try discriminate H.
    destruct (sortKeys rest) as [ks|err| | | | |];
      cbn [bind] in H; try discriminate H.
    injection H as <-. destruct (IH ks eq_refl) as [Hm Hk].
    split; [cbn [map snd]; rewrite Hm; reflexivity|].
    constructor; [exact Hn | exact Hk].
Qed.

Lemma filter_insertDesc (c : Z) (x : Z * TagCount) (l : list (Z * TagCount)) :
  descending l ->
  filter (fun y => (fst y =? c)%Z) (insertDesc x l)
  = (filter (fun y => (fst y =? c)%Z) l
       ++ filter (fun y => (fst y =? c)%Z) [x])%list.
Proof.
  unfold descending. induction l as [|y rest IH]; intros Hs.
  - reflexivity.
  - inversion Hs as [|? ? Hrest Hall]; subst. cbn [insertDesc].
    destruct (Z.ltb_spec (fst y) (fst x)) as [Hlt|Hge].
    + cbn [filter]. destruct (Z.eqb_spec (fst x) c) as [Hx|Hx].
      * assert (Hnone : filter (fun y0 => (fst y0 =? c)%Z) rest = []).
        { clear IH Hs Hrest. induction rest as [|z rest IH]; [reflexivity|].
          inversion Hall as [|? ? Hz Hzs]; subst. cbn [filter].
          destruct (Z.eqb_spec (fst z) (fst x)) as [E|E]; [lia|].
          apply IH, Hzs. }
        destruct (Z.eqb_spec (fst y) c) as [Hy|Hy]; [lia|].
        rewrite Hnone. reflexivity.
      * rewrite app_nil_r. reflexivity.
    + cbn [filter]. rewrite (IH Hrest).
      destruct (fst y =? c)%Z; reflexivity.
Qed.

Lemma sortDesc_stable (c : Z) (l : list (Z * TagCount)) :
  filter (fun y => (fst y =? c)%Z) (sortDesc l)
  = filter (fun y => (fst y =? c)%Z) l.
Proof.
  unfold sortDesc.
  assert (H : forall acc,
             descending acc ->
             filter (fun y => (fst y =? c)%Z)
               (fold_left (fun acc x => insertDesc x acc) l acc)
             = (filter (fun y => (fst y =? c)%Z) acc
                  ++ filter (fun y => (fst y =? c)%Z) l)%list).
  { induction l as [|x rest IH]; intros acc Hacc; cbn [fold_left].
    - rewrite app_nil_r. reflexivity.
    - rewrite (IH _ (insertDesc_sorted x acc Hacc)).
      rewrite (filter_insertDesc c x acc Hacc), <- app_assoc.
      cbn [filter]. destruct (fst x =? c)%Z; reflexivity. }
  apply (H []). constructor.
Qed.

Lemma filter_keyed (c : Z) (l : list (Z * TagCount)) :
  Forall keyOf l ->
  filter (sameCount c) (map snd l)
  = map snd (filter (fun y => (fst y =? c)%Z) l).
Proof.
  induction 1 as [|kp rest Hk Hrest IH]; [reflexivity|].
  cbn [map filter]. unfold sameCount at 1. rewrite Hk, IH.
  destruct (fst kp =? c)%Z; reflexivity.
Qed.

Lemma notBelow_keyed (l : list (Z * TagCount)) :
  Forall keyOf l -> descending l -> StronglySorted notBelow (map snd l).
Proof.
  intros Hkeys Hs. induction Hs as [|kp rest Hrest IH Hall]; cbn [map].
  - constructor.
  - inversion Hkeys as [|? ? Hk Hks]; subst.
    constructor; [auto|].
    apply Forall_map. rewrite Forall_forall in *.
    intros kq Hin. exists (fst kp), (fst kq).
    split; [exact Hk|]. split; [exact (Hks kq Hin) | exact (Hall kq Hin)].
Qed.

(** X15: the order [fetchTags] lists the tags in.  When every count has a
    number, the sorted list holds the entries of the map, in descending
    order of these numbers, and the sort is stable: entries with the same
    number stay in the order the map has them in, which is the order their
    names first came up in the response. *)
Theorem sortByCount_stable :
  forall (allTags sorted : TagMap),
    sortByCount allTags = Ret sorted ->
    Permutation sorted allTags
    /\ StronglySorted notBelow sorted
    /\ forall c : Z,
         filter (sameCount c) sorted = filter (sameCount c) allTags.
Proof.
  intros m sorted H. unfold sortByCount in H.
  destruct (sortKeys m) as [keyed|err| | | | |] eqn:Hkeys;
    cbn [bind] in H; try discriminate H.
  injection H as <-.
  destruct (sortKeys_ret m keyed Hkeys) as [Hm Hk].
  assert (Hk' : Forall keyOf (sortDesc keyed)).
  { eapply Permutation_Forall;
      [apply Permutation_sym, sortDesc_perm | exact Hk]. }
  split; [|split].
  - rewrite <- Hm. apply Permutation_map, sortDesc_perm.
  - apply notBelow_keyed; [exact Hk' | apply sortDesc_sorted].
  - intros c. rewrite (filter_keyed c _ Hk'), sortDesc_stable.
    rewrite <- (filter_keyed c _ Hk), Hm. reflexivity.
Qed.

(** *** Topics *)

Lemma getOptional_returns (data : JValue) (p : string) :
  exists v, getOptional data p = Ret v.
Proof.
  destruct data; simpl; eauto; destruct (p =? "length"); eauto.
Qed.

Lemma or_array_truthy (v : JValue) : truthy (or v (JArr [])) = true.
Proof.
  unfold or. destruct (truthy v) eqn:H; [exact H | reflexivity].
Qed.

Section Topics.

Variable settings : DiscourseSyncSettings.

Lemma fetchTopicInfo_returns (w : World) (tr0 : Trace) (topicId : Z) :
  exists info tr,
    run w tr0 (fetchTopicInfo settings topicId) = (Returned info, tr).
Proof.
  unfold fetchTopicInfo. rewrite run_try_request.
  destruct (network w tr0 _) as [resp|e]; cbn [settle bind];
    [|cbn [tryCatch run notify bind]; eauto].
  destruct (status resp =? 200)%Z; [|cbn [tryCatch run]; eauto].
  unfold getJson. destruct (json resp) as [data|e]; cbn [settle bind];
    [|cbn [tryCatch run notify bind]; eauto].
  destruct (getOptional_returns data "tags") as [tg ->].
  destruct (getOptional_returns data "category_id") as [cid ->].
  cbn [bind tryCatch run]. eauto.
Qed.

(** X16: on every host [fetchTopicInfo] returns, with [tags] truthy, after
    its one request and at most one notification.  A 200 answer whose body
    parses is never an error, a [null] body included: the result has
    [data?.tags] or, when that is falsy, the empty list, and
    [data?.category_id] as it is. *)
Theorem fetchTopicInfo_always_answers :
  forall (w : World) (tr0 : Trace) (topicId : Z),
    let r := getRequest settings ("/t/" ++ string_of_Z topicId ++ ".json") in
    exists (info : TopicInfo) (evs : Trace),
      run w tr0 (fetchTopicInfo settings topicId)
      = (Returned info, (tr0 ++ Requested r :: evs)%list)
      /\ truthy (tags info) = true
      /\ (evs = []
          \/ (info = {| tags := JArr []; categoryId := None |}
              /\ exists msg, evs = [Notified msg]))
      /\ (forall resp data,
            network w tr0 r = Done resp -> status resp = 200%Z ->
            json resp = Done data ->
            evs = []
            /\ exists tg cid,
                 getOptional data "tags" = Ret tg
                 /\ getOptional data "category_id" = Ret cid
                 /\ info = {| tags := or tg (JArr []);
                              categoryId := Some cid |}).
Proof.
  intros w tr0 topicId r. unfold fetchTopicInfo. rewrite run_try_request.
  fold r.
  destruct (network w tr0 r) as [resp|e]; cbn [settle bind].
  2:{ cbn [tryCatch run notify bind]. eexists. eexists.
      rewrite <- app_assoc. split; [reflexivity|]. split; [reflexivity|].
      split; [right; eauto|]. intros ? ? H. discriminate H. }
  destruct (status resp =? 200)%Z eqn:Hst.
  2:{ apply Z.eqb_neq in Hst. cbn [tryCatch run]. eexists. exists [].
      split; [reflexivity|]. split; [reflexivity|]. split; [left; reflexivity|].
      intros ? ? H Hs. injection H as <-. contradiction. }
  unfold getJson. destruct (json resp) as [data|e] eqn:Hjson;
    cbn [settle bind].
  2:{ cbn [tryCatch run notify bind]. eexists. eexists.
      rewrite <- app_assoc. split; [reflexivity|]. split; [reflexivity|].
      split; [right; eauto|]. intros ? ? H _ Hj. injection H as <-.
      rewrite Hjson in Hj. discriminate Hj. }
  destruct (getOptional_returns data "tags") as [tg Htg].
  destruct (getOptional_returns data "category_id") as [cid Hcid].
  rewrite Htg, Hcid. cbn [bind tryCatch run]. eexists. exists [].
  split; [reflexivity|]. split; [apply or_array_truthy|].
  split; [left; reflexivity|].
  intros ? ? H _ Hj. injection H as <-. rewrite Hjson in Hj.
  injection Hj as <-. split; [reflexivity|]. exists tg, cid. auto.
Qed.

(** X17: [fetchTopicTags] is [fetchTopicInfo] followed by the reading of
    [tags]: on every host it makes the same host calls and returns the
    [tags] of what [fetchTopicInfo] returns, so its own [catch] and
    notification are never reached. *)
Theorem fetchTopicTags_projection :
  forall (w : World) (tr0 : Trace) (topicId : Z),
    exists (info : TopicInfo) (tr : Trace),
      run w tr0 (fetchTopicInfo settings topicId) = (Returned info, tr)
      /\ run w tr0 (fetchTopicTags settings topicId)
         = (Returned (tags info), tr).
Proof.
  intros w tr0 topicId.
  destruct (fetchTopicInfo_returns w tr0 topicId) as (info & tr & Hrun).
  exists info, tr. split; [exact Hrun|].
  unfold fetchTopicTags. rewrite run_try_bind, Hrun. reflexivity.
Qed.

End Topics.

(** *** The requests of the client *)

Lemma sends_bind {A B : Type} (P : RequestUrlParam -> Prop) (p : Prog A)
    (f : A -> Prog B) :
  sends P p -> (forall a, sends P (f a)) -> sends P (bind p f).
Proof.
  intros Hp Hf. induction p; simpl in *; auto.
  destruct Hp as [Hr Hk]. split; auto.
Qed.

Lemma sends_tryCatch {A : Type} (P : RequestUrlParam -> Prop) (p : Prog A)
    (h : JsError -> Prog A) :
  sends P p -> (forall e, sends P (h e)) -> sends P (tryCatch p h).
Proof.
  intros Hp Hh. induction p; simpl in *; auto.
  destruct Hp as [Hr Hk]. split; auto.
Qed.

Lemma sends_silent {A : Type} (P : RequestUrlParam -> Prop) (p : Prog A) :
  silent p -> sends P p.
Proof.
  destruct p; simpl; intros H; try contradiction; exact I.
Qed.

Lemma sends_requestUrl (P : RequestUrlParam -> Prop) (r : RequestUrlParam) :
  P r -> sends P (requestUrl r).
Proof.
  intros H. split; [exact H|]. intros o. apply sends_silent, silent_settle.
Qed.

Lemma sends_readBinary (P : RequestUrlParam -> Prop) (f : TFile) :
  sends P (readBinary f).
Proof.
  intros o. apply sends_silent, silent_settle.
Qed.

Lemma sends_notify (P : RequestUrlParam -> Prop) (msg : string) :
  sends P (notify msg).
Proof.
  exact I.
Qed.

Lemma requests_app (tr tr' : Trace) :
  requests (tr ++ tr')%list = (requests tr ++ requests tr')%list.
Proof.
  apply flat_map_app.
Qed.

Lemma sends_run {A : Type} (P : RequestUrlParam -> Prop) (p : Prog A) :
  sends P p ->
  forall (w : World) (tr : Trace),
    Forall P (requests tr) -> Forall P (requests (snd (run w tr p))).
Proof.
  induction p as [a|e| |r k IH|f k IH|k IH|msg k IH]; simpl;
    intros Hp w tr Htr; auto.
  - destruct Hp as [Hr Hk]. apply IH; [apply Hk|].
    rewrite requests_app. apply Forall_app. split; [exact Htr|].
    constructor; [exact Hr | constructor].
  - apply IH; [apply Hp|]. rewrite requests_app, app_nil_r. exact Htr.
  - apply IH; [exact Hp|]. rewrite requests_app, app_nil_r. exact Htr.
Qed.

Lemma startsWith_app (pre rest : string) : startsWith (pre ++ rest) pre = true.
Proof.
  induction pre as [|c pre IH]; simpl.
  - destruct rest; reflexivity.
  - rewrite Ascii.eqb_refl. exact IH.
Qed.

Section Requests.

Variable t : string -> string.
Variable settings : DiscourseSyncSettings.

Lemma authorised_getRequest (path : string) :
  authorised settings (getRequest settings path).
Proof.
  split; [apply startsWith_app|]. split; reflexivity.
Qed.

Lemma authorised_createRequest (title content : string) (category : Z)
    (tags : option (list string)) :
  authorised settings (createRequest settings title content category tags).
Proof.
  split; [apply startsWith_app|]. split; reflexivity.
Qed.

Lemma authorised_postPut (postId : Z) (content : string) :
  authorised settings (postPut settings postId content).
Proof.
  split; [apply startsWith_app|]. split; reflexivity.
Qed.

Lemma authorised_topicPut (topicId : Z) (title : string) (category : Z)
    (tags : option (list string)) :
  authorised settings (topicPut settings topicId title category tags).
Proof.
  split; [apply startsWith_app|]. split; reflexivity.
Qed.

Lemma authorised_uploadRequest (file : TFile) (imgfile : list byte)
    (boundary : string) :
  authorised settings (uploadRequest settings file imgfile boundary).
Proof.
  split; [apply startsWith_app|]. split; reflexivity.
Qed.

Lemma sends_checkCanCreateTags :
  sends (authorised settings) (checkCanCreateTags settings).
Proof.
  unfold checkCanCreateTags. apply sends_tryCatch; [|intros; exact I].
  apply sends_bind; [apply sends_requestUrl, authorised_getRequest|].
  intros response. apply sends_silent. quiet.
Qed.

Lemma sends_fetchTopicInfo (topicId : Z) :
  sends (authorised settings) (fetchTopicInfo settings topicId).
Proof.
  unfold fetchTopicInfo. apply sends_tryCatch; [|intros; exact I].
  apply sends_bind; [apply sends_requestUrl, authorised_getRequest|].
  intros response. apply sends_silent. quiet.
Qed.

(** X18: every request the client makes, in any method and on any host,
    goes to a URL that begins with the base URL of the settings, carries
    the key of the settings in the [User-Api-Key] header, and asks for an
    error status to be answered, not thrown. *)
Theorem requests_authorised :
  forall (w : World) (tr0 : Trace),
    Forall (authorised settings) (requests tr0) ->
    let kept {A : Type} (p : Prog A) : Prop :=
      Forall (authorised settings) (requests (snd (run w tr0 p))) in
    (forall file, kept (uploadImage settings file))
    /\ (forall title content category tags,
          kept (createPost t settings title content category tags))
    /\ (forall postId topicId title content category tags,
          kept (updatePost t settings postId topicId title content category
                  tags))
    /\ kept (fetchCategories settings)
    /\ kept (fetchTags settings)
    /\ kept (checkCanCreateTags settings)
    /\ kept (testApiKey t settings)
    /\ (forall topicId, kept (fetchTopicInfo settings topicId))
    /\ (forall topicId, kept (fetchTopicTags settings topicId)).
Proof.
  intros w tr0 Htr kept. unfold kept.
  repeat split; intros; apply sends_run; try exact Htr.
  - unfold uploadImage. apply sends_tryCatch; [|intros; exact I].
    apply sends_bind; [apply sends_readBinary|]. intros imgfile.
    apply sends_bind; [intros s; exact I|]. intros boundary.
    apply sends_bind; [apply sends_requestUrl, authorised_uploadRequest|].
    intros response. destruct (status response =? 200)%Z; [|exact I].
    apply sends_silent. quiet.
  - unfold createPost. apply sends_tryCatch; [|intros; exact I].
    apply sends_bind; [apply sends_requestUrl, authorised_createRequest|].
    intros response. apply sends_silent. quiet.
  - unfold updatePost. apply sends_tryCatch; [|intros; exact I].
    apply sends_bind; [apply sends_requestUrl, authorised_postPut|].
    intros postResponse. destruct (negb _); [exact I|].
    apply sends_bind; [apply sends_requestUrl, authorised_topicPut|].
    intros topicResponse. apply sends_silent. quiet.
  - unfold fetchCategories. apply sends_tryCatch; [|intros; exact I].
    apply sends_bind; [apply sends_requestUrl, authorised_getRequest|].
    intros response. destruct (status response =? 200)%Z; [|exact I].
    apply sends_silent. quiet.
  - unfold fetchTags. apply sends_tryCatch; [|intros; exact I].
    apply sends_bind; [apply sends_requestUrl, authorised_getRequest|].
    intros response. destruct (status response =? 200)%Z; [|exact I].
    apply sends_bind; [apply sends_silent; quiet|]. intros data.
    apply sends_bind; [apply sends_silent; quiet|]. intros hasTags.
    destruct (truthy hasTags); [|exact I].
    apply sends_bind; [apply sends_checkCanCreateTags|]. intros can.
    apply sends_silent. apply (silent_listTags can data).
  - apply sends_checkCanCreateTags.
  - unfold testApiKey. destruct (_ || _); [exact I|].
    apply sends_tryCatch; [|intros; exact I].
    apply sends_bind; [apply sends_requestUrl, authorised_getRequest|].
    intros response. apply sends_silent. quiet.
  - apply sends_fetchTopicInfo.
  - unfold fetchTopicTags. apply sends_tryCatch; [|intros; exact I].
    apply sends_bind; [apply sends_fetchTopicInfo|]. intros; exact I.
Qed.

End Requests.

(** *** The names of the tags *)

Lemma sameValueZero_sym (a b : JValue) :
  sameValueZero a b = sameValueZero b a.
Proof.
  destruct a, b; simpl; auto.
  - destruct b, b0; reflexivity.
  - apply Z.eqb_sym.
  - apply String.eqb_sym.
Qed.

Lemma sameValueZero_trans (a b c : JValue) :
  sameValueZero a b = true -> sameValueZero b c = true ->
  sameValueZero a c = true.
Proof.
  destruct a, b; simpl; try discriminate; destruct c; simpl;
    try discriminate; auto.
  - destruct b, b0, b1; simpl; auto.
  - intros H1 H2. apply Z.eqb_eq in H1, H2. apply Z.eqb_eq. congruence.
  - intros H1 H2. apply String.eqb_eq in H1, H2. apply String.eqb_eq.
    congruence.
Qed.

Lemma sameValueZero_other (a b c : JValue) :
  sameValueZero a b = true -> sameValueZero a c = false ->
  sameValueZero b c = false.
Proof.
  intros Hab Hac. destruct (sameValueZero b c) eqn:Hbc; [|reflexivity].
  rewrite (sameValueZero_trans a b c Hab Hbc) in Hac. discriminate Hac.
Qed.

Lemma distinctNames_perm (l l' : list JValue) :
  Permutation l l' -> distinctNames l -> distinctNames l'.
Proof.
  induction 1 as [|x l l' Hperm IH|x y l|l l' l'' H1 IH1 H2 IH2];
    cbn [distinctNames]; auto.
  - intros [Hx Hl]. split; [|auto].
    eapply Permutation_Forall; eauto.
  - intros [Hy [Hx Hl]]. inversion Hy as [|? ? Hyx Hyl]; subst.
    split; [|auto]. constructor; [|exact Hx].
    rewrite sameValueZero_sym. exact Hyx.
Qed.

Lemma names_mapSet_other (a : JValue) (m : TagMap) (value : TagCount) :
  Forall (fun b => sameValueZero a b = false) (map entry_name m) ->
  sameValueZero a (entry_name value) = false ->
  Forall (fun b => sameValueZero a b = false)
    (map entry_name (mapSet m value)).
Proof.
  induction m as [|e rest IH]; cbn [mapSet map]; intros Hm Hv.
  - constructor; [exact Hv | constructor].
  - inversion Hm as [|? ? He Hrest]; subst.
    destruct (sameValueZero (entry_name e) (entry_name value));
      cbn [map]; constructor; auto.
Qed.

Lemma distinctNames_mapSet (m : TagMap) (value : TagCount) :
  distinctNames (map entry_name m) ->
  distinctNames (map entry_name (mapSet m value)).
Proof.
  induction m as [|e rest IH]; cbn [mapSet map distinctNames].
  - intros _. split; [constructor | exact I].
  - intros [He Hrest].
    destruct (sameValueZero (entry_name e) (entry_name value)) eqn:Hsame;
      cbn [map distinctNames].
    + split; [|exact Hrest].
      eapply Forall_impl; [|exact He]. cbn beta. intros b Hb.
      exact (sameValueZero_other _ _ _ Hsame Hb).
    + split; [|auto]. apply names_mapSet_other; assumption.
Qed.

Lemma names_setCount (m : TagMap) (key c : JValue) :
  map entry_name (setCount m key c) = map entry_name m.
Proof.
  induction m as [|e rest IH]; cbn [setCount map]; [reflexivity|].
  destruct (sameValueZero (entry_name e) key); cbn [map entry_name];
    [reflexivity | rewrite IH; reflexivity].
Qed.

Lemma ensures_forEachItem {S : Type} (Inv : S -> Prop)
    (callback : JValue -> S -> Prog S) :
  (forall x s, Inv s -> ensures Inv (callback x s)) ->
  forall items s, Inv s -> ensures Inv (forEachItem items callback s).
Proof.
  intros Hcb. induction items as [|x rest IH]; intros s Hs;
    cbn [forEachItem]; [exact Hs|].
  apply ensures_bind. eapply ensures_weaken; [|apply Hcb, Hs].
  intros s' Hs'. apply IH, Hs'.
Qed.

Lemma ensures_forEach {S : Type} (Inv : S -> Prop) (v : JValue)
    (callback : JValue -> S -> Prog S) :
  (forall x s, Inv s -> ensures Inv (callback x s)) ->
  forall s, Inv s -> ensures Inv (forEach v callback s).
Proof.
  intros Hcb s Hs. destruct v; cbn [forEach]; try exact I.
  apply ensures_forEachItem; assumption.
Qed.

Lemma addTag_distinct (tag : JValue) (m : TagMap) :
  distinctNames (map entry_name m) ->
  ensures (fun m' => distinctNames (map entry_name m')) (addTag tag m).
Proof.
  intros Hm. unfold addTag. ensure. apply distinctNames_mapSet, Hm.
Qed.

Lemma mergeTag_distinct (tag : JValue) (m : TagMap) :
  distinctNames (map entry_name m) ->
  ensures (fun m' => distinctNames (map entry_name m')) (mergeTag tag m).
Proof.
  intros Hm. unfold mergeTag. apply ensures_bind, ensures_all. intros key.
  destruct (mapGet m key).
  - ensure. rewrite names_setCount. exact Hm.
  - ensure. apply distinctNames_mapSet, Hm.
Qed.

Lemma mergeGroup_distinct (group : JValue) (m : TagMap) :
  distinctNames (map entry_name m) ->
  ensures (fun m' => distinctNames (map entry_name m')) (mergeGroup group m).
Proof.
  intros Hm. unfold mergeGroup. apply ensures_bind, ensures_all.
  intros gtags. destruct (truthy gtags); [|exact Hm].
  apply ensures_forEach; [apply mergeTag_distinct | exact Hm].
Qed.

Lemma mergeTags_distinct (data : JValue) :
  ensures (fun m => distinctNames (map entry_name m)) (mergeTags data).
Proof.
  unfold mergeTags. apply ensures_bind, ensures_all. intros top.
  apply ensures_bind.
  eapply ensures_weaken;
    [|apply (ensures_forEach
               (fun m => distinctNames (map entry_name m)) top addTag
               addTag_distinct []); exact I].
  intros allTags Hall. apply ensures_bind, ensures_all. intros extras.
  apply ensures_bind, ensures_all. intros hasGroups.
  destruct (truthy hasGroups); [|exact Hall].
  apply ensures_bind, ensures_all. intros e.
  apply ensures_bind, ensures_all. intros groups.
  apply ensures_forEach; [apply mergeGroup_distinct | exact Hall].
Qed.

Lemma sortByCount_perm (m : TagMap) :
  ensures (fun sorted => Permutation sorted m) (sortByCount m).
Proof.
  unfold sortByCount.
  destruct (sortKeys m) as [keyed|e| | | | |] eqn:Hkeys; cbn [bind ensures];
    try exact I.
  - destruct (sortKeys_ret m keyed Hkeys) as [Hm _].
    rewrite <- Hm. apply Permutation_map, sortDesc_perm.
  - pose proof (silent_sortByCount m) as Hs. unfold sortByCount in Hs.
    rewrite Hkeys in Hs. destruct Hs.
  - pose proof (silent_sortByCount m) as Hs. unfold sortByCount in Hs.
    rewrite Hkeys in Hs. destruct Hs.
  - pose proof (silent_sortByCount m) as Hs. unfold sortByCount in Hs.
    rewrite Hkeys in Hs. destruct Hs.
  - pose proof (silent_sortByCount m) as Hs. unfold sortByCount in Hs.
    rewrite Hkeys in Hs. destruct Hs.
Qed.

Lemma listTags_distinct (can data : JValue) :
  ensures (fun tags : list Tag => distinctNames (map tag_name tags))
    (listTags can data).
Proof.
  unfold listTags. apply ensures_bind.
  eapply ensures_weaken; [|apply mergeTags_distinct].
  intros allTags Hall. apply ensures_bind.
  eapply ensures_weaken; [|apply sortByCount_perm].
  intros sorted Hperm. cbn [ensures app]. rewrite map_map. cbn [tag_name].
  eapply distinctNames_perm; [|exact Hall].
  apply Permutation_map, Permutation_sym, Hperm.
Qed.

(** X19: whatever the body of the tags holds, [fetchTags] returns no name
    twice: no two names of the result are the same key of a [Map], so two
    equal strings, or two equal numbers, never both appear. *)
Theorem fetchTags_distinct_names :
  forall (settings : DiscourseSyncSettings) (w : World) (tr0 : Trace)
         (tags : list Tag),
    fst (run w tr0 (fetchTags settings)) = Returned tags ->
    distinctNames (map tag_name tags).
Proof.
  intros settings w tr0 tags. rewrite fetchTags_run.
  set (r := getRequest settings "/tags.json").
  destruct (checkCanCreateTags_returns settings w (tr0 ++ [Requested r])%list)
    as [can Hcan].
  rewrite Hcan. intros Hrun.
  assert (Hnil : Returned ([] : list Tag) = Returned tags ->
                 distinctNames (map tag_name tags)).
  { intros H. injection H as <-. exact I. }
  destruct (network w tr0 r) as [resp|e]; [|exact (Hnil Hrun)].
  destruct (status resp =? 200)%Z; [|exact (Hnil Hrun)].
  destruct (json resp) as [data|e]; [|exact (Hnil Hrun)].
  destruct (and data (get data "tags")) as [x|e| | | | |];
    try discriminate Hrun; [|exact (Hnil Hrun)].
  destruct (truthy x); [|exact (Hnil Hrun)].
  pose proof (listTags_distinct can data) as Hall.
  destruct (listTags can data) as [tags'|e| | | | |];
    try discriminate Hrun; [|exact (Hnil Hrun)].
  injection Hrun as <-. exact Hall.
Qed.

(** ** Instances of the further properties *)

(** X1 on a forum that rejects a post with messages by field: the call
    returns a failure; and on a 200 answer with an id and no topic id: the
    success has its topic id undefined. *)
Lemma createPost_always_answers_witness :
  (exists res : PostResult,
     run (constantWorld (failed 422 fieldErrors)) []
       (createPost keyText forum "T" "C" 1 None)
     = (Returned res, [Requested (createRequest forum "T" "C" 1 None)])
     /\ createResult res)
  /\ (exists res : PostResult,
        run (constantWorld (ok (JObj [("id", JNum 1)]))) []
          (createPost keyText forum "T" "C" 1 None)
        = (Returned res, [Requested (createRequest forum "T" "C" 1 None)])
        /\ createResult res
        /\ topicId res = Some JUndefined).
Proof.
  split.
  - destruct (createPost_always_answers keyText forum
                (constantWorld (failed 422 fieldErrors)) [] "T" "C" 1 None)
      as (c & Hrun & _ & Hshape & Hreturns).
    destruct Hreturns as [res ->].
    + intros resp Hresp _ data errors Hjson Herrors.
      injection Hresp as <-. injection Hjson as <-. injection Herrors as <-.
      discriminate.
    + exists res. split; [exact Hrun | exact (Hshape res eq_refl)].
  - destruct (createPost_always_answers keyText forum
                (constantWorld (ok (JObj [("id", JNum 1)]))) [] "T" "C" 1 None)
      as (c & Hrun & _ & Hshape & Hreturns).
    destruct Hreturns as [res ->].
    + intros resp Hresp Hst. injection Hresp as <-.
      exfalso. apply Hst. reflexivity.
    + exists res. split; [exact Hrun|]. split; [exact (Hshape res eq_refl)|].
      injection Hrun as <-. reflexivity.
Defined.

(** X3 on a forum that rejects the change of the topic with messages by
    field: the call returns a failure after both requests. *)
Lemma updatePost_always_answers_witness :
  exists res : PostResult,
    run fieldRejectingForum [] (updatePost keyText forum 12 13 "T" "C" 1 None)
    = (Returned res,
       [Requested (postPut forum 12 "C");
        Requested (topicPut forum 13 "T" 1 None)])
    /\ updateResult res.
Proof.
  destruct (updatePost_always_answers keyText forum fieldRejectingForum []
              12 13 "T" "C" 1 None)
    as (c & evs & Hrun & _ & _ & Hshape & Hreturns).
  destruct Hreturns as [res ->].
  - intros resp Hresp _ data errors Hjson Herrors.
    injection Hresp as <-. injection Hjson as <-. injection Herrors as <-.
    discriminate.
  - exists res. split; [|exact (Hshape res eq_refl)].
    rewrite Hrun. f_equal.
    pose proof (f_equal snd Hrun) as Htr. cbn [snd] in Htr.
    vm_compute in Htr. injection Htr as <-. reflexivity.
Defined.

(** X2 on a forum that answers both PUTs with 200. *)
Lemma updatePost_success_witness :
  succeeds
    (fst (run (constantWorld (ok JNull)) []
            (updatePost keyText forum 12 13 "T" "C" 1 None))).
Proof.
  apply (proj2 (proj1 (updatePost_success_iff_both_200 keyText forum
                         (constantWorld (ok JNull)) [] 12 13 "T" "C" 1
                         None))).
  exists {| status := 200; json := Done JNull |},
         {| status := 200; json := Done JNull |}.
  repeat split.
Defined.


(** X5 on a host without network. *)
Lemma updatePost_exception_witness :
  run offline [] (updatePost keyText forum 12 13 "T" "C" 1 None)
  = (Returned (failure (JStr "UPDATE_FAILED: net::ERR_FAILED")),
     [Requested (postPut forum 12 "C")]).
Proof.
  apply (proj1 (updatePost_exception keyText forum offline [] 12 13 "T" "C"
                  1 None)
           (mkError "Error" "net::ERR_FAILED") eq_refl).
Defined.

(** X6 on a forum that answers with a body. *)
Lemma testApiKey_verdict_witness :
  exists res : TestResult,
    run (constantWorld (ok siteBody)) [] (testApiKey keyText forum)
    = (Returned res, [Requested (getRequest forum "/site.json")])
    /\ test_success res = true
    /\ message res = "API_TEST_SUCCESS".
Proof.
  destruct (testApiKey_verdict keyText forum (constantWorld (ok siteBody)) []
              eq_refl eq_refl)
    as (res & Hrun & Hiff & Hmsg & _).
  assert (Hok : test_success res = true).
  { apply Hiff. exists {| status := 200; json := Done siteBody |}, siteBody.
    repeat split. }
  exists res. split; [exact Hrun|]. split; [exact Hok | exact (Hmsg Hok)].
Defined.

(** X8 on a file that cannot be read. *)
Lemma uploadImage_failure_witness :
  run emptyVault [] (uploadImage forum picture)
  = (Returned None,
     [ReadFile picture;
      Notified "Exception while uploading image: Error: ENOENT"]).
Proof.
  apply (proj1 (uploadImage_failure_paths forum emptyVault [] picture)
           (mkError "Error" "ENOENT") eq_refl).
Defined.

(** X11 on a list of categories that ends with [null]. *)
Lemma fetchCategories_empty_witness :
  exists msg,
    run (constantWorld (ok brokenCategories)) [] (fetchCategories forum)
    = (Returned [],
       [Requested (getRequest forum
                     "/categories.json?include_subcategories=true");
        Notified msg]).
Proof.
  destruct (proj2 (proj2 (fetchCategories_empty_results forum
                            (constantWorld (ok brokenCategories)) []))
              {| status := 200; json := Done brokenCategories |}
              brokenCategories eq_refl eq_refl eq_refl)
    as (_ & Hlist).
  destruct (Hlist _ eq_refl) as (_ & Hcats).
  destruct (Hcats _ eq_refl) as (_ & Hitems).
  apply (Hitems _ eq_refl eq_refl eq_refl). right. left. reflexivity.
Defined.

(** X13 on the forum of the tag [a]. *)
Lemma fetchTags_one_permission_witness :
  exists can : JValue,
    fst (run tagsForum [Requested (getRequest forum "/tags.json")]
           (checkCanCreateTags forum))
    = Returned can
    /\ canCreate {| tag_name := JStr "a"; canCreate := JBool true |} = can.
Proof.
  destruct (fetchTags_one_permission forum tagsForum []
              [{| tag_name := JStr "a"; canCreate := JBool true |}] eq_refl)
    as (can & Hcan & Hall).
  exists can. split; [exact Hcan|]. apply Hall. left. reflexivity.
Defined.

(** X14 on a list of tags that ends with [null]. *)
Lemma fetchTags_empty_witness :
  exists msg,
    run (constantWorld (ok brokenTags)) [] (fetchTags forum)
    = (Returned [],
       [Requested (getRequest forum "/tags.json");
        Requested (getRequest forum "/site.json");
        Notified msg]).
Proof.
  apply (proj2 (proj2 (fetchTags_empty_results forum
                         (constantWorld (ok brokenTags)) []))
           {| status := 200; json := Done brokenTags |} brokenTags
           [tagObject "a" 5; JNull] eq_refl eq_refl eq_refl eq_refl).
  right. left. reflexivity.
Defined.

(** X15 on three tags, two of them used once: [a] stays before [c]. *)
Lemma sortByCount_stable_witness :
  sortByCount threeTags
  = Ret (represent [("b", 2%Z); ("a", 1%Z); ("c", 1%Z)])
  /\ filter (sameCount 1) (represent [("b", 2%Z); ("a", 1%Z); ("c", 1%Z)])
     = filter (sameCount 1) threeTags.
Proof.
  split; [reflexivity|].
  apply (proj2 (proj2 (sortByCount_stable threeTags
                         (represent [("b", 2%Z); ("a", 1%Z); ("c", 1%Z)])
                         eq_refl))).
Defined.

(** X16 on a 200 answer with the body [null]. *)
Lemma fetchTopicInfo_null_body_witness :
  exists (info : TopicInfo) (evs : Trace),
    run (constantWorld (ok JNull)) [] (fetchTopicInfo forum 7)
    = (Returned info, Requested (getRequest forum "/t/7.json") :: evs)
    /\ evs = []
    /\ info = {| tags := JArr []; categoryId := Some JUndefined |}.
Proof.
  destruct (fetchTopicInfo_always_answers forum (constantWorld (ok JNull))
              [] 7)
    as (info & evs & Hrun & _ & _ & Hbody).
  destruct (Hbody {| status := 200; json := Done JNull |} JNull
              eq_refl eq_refl eq_refl)
    as (Hevs & tg & cid & Htg & Hcid & Hinfo).
  exists info, evs. split; [exact Hrun|]. split; [exact Hevs|].
  injection Htg as <-. injection Hcid as <-. exact Hinfo.
Defined.

(** X18 on the two requests of [fetchTags]. *)
Lemma requests_authorised_witness :
  Forall (authorised forum)
    (requests (snd (run tagsForum [] (fetchTags forum)))).
Proof.
  exact (proj1 (proj2 (proj2 (proj2 (proj2
           (requests_authorised keyText forum tagsForum []
              (Forall_nil _))))))).
Defined.

(** X19 on the forum of the tag [a]. *)
Lemma fetchTags_distinct_names_witness :
  distinctNames [JStr "a"].
Proof.
  exact (fetchTags_distinct_names forum tagsForum []
           [{| tag_name := JStr "a"; canCreate := JBool true |}] eq_refl).
Defined.
